(** * SeaPP pass pipeline and the AE-VAL command line: a shallow embedding

    Two programs of the repository are modelled here.

    - [Module SeaPP]: the [main] function of the bitcode pre-processor.  It
      parses a module, opens the output file, fills an [llvm::PassManager]
      with a sequence of passes that depends on the command-line options and
      on the module, and runs it.  The passes themselves are LLVM or SeaHorn
      code that lives elsewhere; what is modelled is which passes are
      added, with which arguments and in which order, together with the
      early exits of [main].

    - [Module AeVal]: the helper [getSmtFileName] of [tools/aeval/Ae.cpp],
      which picks the n-th [.smt2] argument from [argv]. *)

From Stdlib Require Import ZArith List String Ascii Bool Lia Permutation.
From Equations Require Import Equations.
Import ListNotations.

Local Open Scope Z_scope.

Module SeaPP.

(** ** Passes

    One constructor per pass that [main] can hand to the pass manager,
    carrying the constructor arguments that [main] supplies. *)
Inductive Pass : Type :=
| DataLayout (layout : string)
| PromoteVerifierCalls
| InternalizePass (exportList : list string)
| GlobalDCEPass
| PromoteMemoryToRegisterPass
| NondetInitPass
| InstructionCombiningPass
| CFGSimplificationPass
| ScalarReplAggregatesPass (Threshold : Z) (UseDomTree : bool)
    (StructMemberThreshold ArrayElementThreshold ScalarLoadThreshold : Z)
| DeadNondetElimPass
| LowerSwitchPass
| DeadInstEliminationPass
| RemoveUnreachableBlocksPass
| MarkInternalInlinePass
| AlwaysInlinerPass
| LowerGvInitializers
| UnifyFunctionExitNodesPass
| LowerCstExprPass
| CanAccessMemory
| ShadowBufferBoundsCheckFuncPars
| BufferBoundsCheck (inlineAll : bool)
| IntegerOverflowCheck (inlineAll : bool)
| MixedSemantics
| VerifierPass
| PrintModulePass (os : string)
| BitcodeWriterPass (os : string).

(** ** Command-line options

    The [llvm::cl::opt] globals of the file, after
    [ParseCommandLineOptions] has resolved them. *)
Record Options : Type := mkOptions {
  InputFilename : string;
  OutputFilename : string;
  OutputAssembly : bool;
  DefaultDataLayout : string;
  InlineAll : bool;
  BOC : bool;
  IOC : bool;
  MixedSem : bool;
  SROA_Threshold : Z;
  SROA_StructMemThreshold : Z;
  SROA_ArrayElementThreshold : Z;
  SROA_ScalarLoadThreshold : Z
}.

Definition INT_MAX : Z := 2147483647.

(** The [llvm::cl::init] values: what the options hold when only the
    positional input file is given. *)
Definition default_options (input : string) : Options :=
  {| InputFilename := input;
     OutputFilename := EmptyString;
     OutputAssembly := false;
     DefaultDataLayout := EmptyString;
     InlineAll := false;
     BOC := false;
     IOC := false;
     MixedSem := false;
     SROA_Threshold := INT_MAX;
     SROA_StructMemThreshold := INT_MAX;
     SROA_ArrayElementThreshold := INT_MAX;
     SROA_ScalarLoadThreshold := -1 |}.

(** The part of an [llvm::Module] that [main] reads. *)
Record Module : Type := mkModule {
  getDataLayout : string
}.

(** [std::string::empty]. *)
Definition empty (s : string) : bool :=
  match s with
  | EmptyString => true
  | String _ _ => false
  end.

(** ** The pass manager

    [pass_manager] is a local object that [main] mutates through
    [pass_manager.add]; the statements that do so are sequenced in a
    state monad over the list of passes added so far. *)
Definition PassManager : Type := list Pass.

Definition PM (A : Type) : Type := PassManager -> A * PassManager.

Definition ret {A : Type} (a : A) : PM A := fun pm => (a, pm).

Definition bind {A B : Type} (m : PM A) (k : A -> PM B) : PM B :=
  fun pm => let (a, pm') := m pm in k a pm'.

Notation "m ;; k" := (bind m (fun _ => k))
  (at level 61, right associativity).

(** [pass_manager.add (p)]: the pass goes to the end of the queue. *)
Definition add (p : Pass) : PM unit := fun pm => (tt, pm ++ [p]).

(** [if (b) { ... }] around a block of additions. *)
Definition when (b : bool) (m : PM unit) : PM unit :=
  if b then m else ret tt.

Definition exec (m : PM unit) (pm : PassManager) : PassManager :=
  snd (m pm).

(** Lines 153-160 of [main]: the choice of the [DataLayout] object.  Both
    branches build it from [moduleDataLayout], as the source does. *)
Definition select_data_layout (opts : Options) (module : Module)
  : option Pass :=
  let moduleDataLayout := getDataLayout module in
  if negb (empty moduleDataLayout) then
    Some (DataLayout moduleDataLayout)
  else if negb (empty (DefaultDataLayout opts)) then
    Some (DataLayout moduleDataLayout)
  else None.

(** Lines 153-253 of [main]: every [pass_manager.add], in program order. *)
Definition add_passes (opts : Options) (module : Module) : PM unit :=
  (match select_data_layout opts module with
   | Some dl => add dl
   | None => ret tt
   end) ;;
  add PromoteVerifierCalls ;;
  add (InternalizePass ["main"%string]) ;;
  add GlobalDCEPass ;;
  add PromoteMemoryToRegisterPass ;;
  add NondetInitPass ;;
  add InstructionCombiningPass ;;
  add CFGSimplificationPass ;;
  add (ScalarReplAggregatesPass (SROA_Threshold opts) true
         (SROA_StructMemThreshold opts)
         (SROA_ArrayElementThreshold opts)
         (SROA_ScalarLoadThreshold opts)) ;;
  add NondetInitPass ;;
  add InstructionCombiningPass ;;
  add CFGSimplificationPass ;;
  add DeadNondetElimPass ;;
  add LowerSwitchPass ;;
  add DeadInstEliminationPass ;;
  add RemoveUnreachableBlocksPass ;;
  when (InlineAll opts)
    (add MarkInternalInlinePass ;;
     add AlwaysInlinerPass ;;
     add GlobalDCEPass) ;;
  add RemoveUnreachableBlocksPass ;;
  add DeadInstEliminationPass ;;
  add GlobalDCEPass ;;
  add LowerGvInitializers ;;
  add UnifyFunctionExitNodesPass ;;
  when (BOC opts)
    (add LowerCstExprPass ;;
     add CanAccessMemory ;;
     when (negb (InlineAll opts)) (add ShadowBufferBoundsCheckFuncPars) ;;
     add (BufferBoundsCheck (InlineAll opts)) ;;
     add NondetInitPass) ;;
  when (IOC opts)
    (add LowerCstExprPass ;;
     add (IntegerOverflowCheck (InlineAll opts))) ;;
  add RemoveUnreachableBlocksPass ;;
  when (MixedSem opts)
    (add MixedSemantics ;;
     add RemoveUnreachableBlocksPass) ;;
  add VerifierPass ;;
  when (negb (empty (OutputFilename opts)))
    (if OutputAssembly opts
     then add (PrintModulePass (OutputFilename opts))
     else add (BitcodeWriterPass (OutputFilename opts))).

(** The queue that [pass_manager.run] receives: [pass_manager] starts
    empty (line 146). *)
Definition pipeline (opts : Options) (module : Module) : list Pass :=
  exec (add_passes opts module) [].

(** ** The process around the pipeline

    What [main] calls outside this file is gathered in [Env]: the IR
    reader, the constructor of [llvm::tool_output_file], the terminal
    query of [llvm::errs()] and the pass manager's [run], whose verifier
    pass aborts the process on a malformed module. *)
Record Env : Type := mkEnv {
  ParseIRFile : string -> Module + string;
  tool_output_file : string -> string;
  errs_has_colors : bool;
  run_completes : list Pass -> Module -> bool
}.

Inductive Event : Type :=
| ChangeColorRed
| ResetColor
| ErrsWrite (msg : string)
| OpenOutput (path : string)
| Run (passes : list Pass) (module : Module)
| Keep (path : string).

Inductive Outcome : Type :=
| Exit (code : Z)
| Aborted.

(** The coloured diagnostic of lines 125-128 and 136-138. *)
Definition report (env : Env) (msg : string) : list Event :=
  (if errs_has_colors env then [ChangeColorRed] else []) ++
  [ErrsWrite ("error: " ++ msg ++ String "010" EmptyString)%string] ++
  (if errs_has_colors env then [ResetColor] else []).

Definition main (env : Env) (opts : Options) : Outcome * list Event :=
  match ParseIRFile env (InputFilename opts) with
  | inr err =>
      (Exit 3, report env ("Bitcode was not properly read; " ++ err)%string)
  | inl module =>
      let '(error_msg, t1) :=
        if negb (empty (OutputFilename opts))
        then (tool_output_file env (OutputFilename opts),
              [OpenOutput (OutputFilename opts)])
        else (EmptyString, []) in
      if negb (empty error_msg) then
        (Exit 3, t1 ++ report env error_msg)
      else
        let passes := pipeline opts module in
        if run_completes env passes module then
          (Exit 0,
           t1 ++ [Run passes module] ++
           (if negb (empty (OutputFilename opts))
            then [Keep (OutputFilename opts)] else []))
        else (Aborted, t1 ++ [Run passes module])
  end.

(** ** Reading the queue

    The blocks of [main], one list per block, in the order of the source.
    [pipeline_blocks] below shows that the queue is their concatenation. *)

(** Line 160. *)
Definition layout_stage (opts : Options) (module : Module) : list Pass :=
  match select_data_layout opts module with
  | Some dl => [dl]
  | None => []
  end.

(** Lines 163-201. *)
Definition normalization_stages (opts : Options) : list Pass :=
  [PromoteVerifierCalls; InternalizePass ["main"%string]; GlobalDCEPass;
   PromoteMemoryToRegisterPass; NondetInitPass;
   InstructionCombiningPass; CFGSimplificationPass;
   ScalarReplAggregatesPass (SROA_Threshold opts) true
     (SROA_StructMemThreshold opts) (SROA_ArrayElementThreshold opts)
     (SROA_ScalarLoadThreshold opts);
   NondetInitPass;
   InstructionCombiningPass; CFGSimplificationPass;
   DeadNondetElimPass; LowerSwitchPass; DeadInstEliminationPass;
   RemoveUnreachableBlocksPass].

(** Lines 203-208. *)
Definition inline_stages (opts : Options) : list Pass :=
  if InlineAll opts
  then [MarkInternalInlinePass; AlwaysInlinerPass; GlobalDCEPass]
  else [].

(** Lines 210-215. *)
Definition cleanup_stages : list Pass :=
  [RemoveUnreachableBlocksPass; DeadInstEliminationPass; GlobalDCEPass;
   LowerGvInitializers; UnifyFunctionExitNodesPass].

(** Lines 217-229. *)
Definition boc_stages (opts : Options) : list Pass :=
  if BOC opts
  then [LowerCstExprPass; CanAccessMemory] ++
       (if negb (InlineAll opts)
        then [ShadowBufferBoundsCheckFuncPars] else []) ++
       [BufferBoundsCheck (InlineAll opts); NondetInitPass]
  else [].

(** Lines 231-235. *)
Definition ioc_stages (opts : Options) : list Pass :=
  if IOC opts
  then [LowerCstExprPass; IntegerOverflowCheck (InlineAll opts)]
  else [].

(** Lines 239-243. *)
Definition mixed_stages (opts : Options) : list Pass :=
  if MixedSem opts
  then [MixedSemantics; RemoveUnreachableBlocksPass]
  else [].

(** Lines 247-253. *)
Definition output_stages (opts : Options) : list Pass :=
  if negb (empty (OutputFilename opts))
  then [if OutputAssembly opts
        then PrintModulePass (OutputFilename opts)
        else BitcodeWriterPass (OutputFilename opts)]
  else [].

(** The additions that sit under no [if]: lines 163-201, 210-215, 237
    and 245. *)
Definition unconditional_part (opts : Options) : list Pass :=
  normalization_stages opts ++ cleanup_stages ++
  [RemoveUnreachableBlocksPass] ++ [VerifierPass].

(** Kinds of stages. *)
Definition is_data_layout (p : Pass) : bool :=
  match p with DataLayout _ => true | _ => false end.

Definition is_ssa_promotion (p : Pass) : bool :=
  match p with PromoteMemoryToRegisterPass => true | _ => false end.

Definition is_aggregate_decomposition (p : Pass) : bool :=
  match p with ScalarReplAggregatesPass _ _ _ _ _ => true | _ => false end.

Definition is_nondet_init (p : Pass) : bool :=
  match p with NondetInitPass => true | _ => false end.

Definition is_cst_expr_lowering (p : Pass) : bool :=
  match p with LowerCstExprPass => true | _ => false end.

Definition is_shadow_parameter (p : Pass) : bool :=
  match p with ShadowBufferBoundsCheckFuncPars => true | _ => false end.

Definition is_bounds_check (p : Pass) : bool :=
  match p with BufferBoundsCheck _ => true | _ => false end.

Definition is_overflow_check (p : Pass) : bool :=
  match p with IntegerOverflowCheck _ => true | _ => false end.

Definition is_verifier (p : Pass) : bool :=
  match p with VerifierPass => true | _ => false end.

Definition is_instrumentation (p : Pass) : bool :=
  is_cst_expr_lowering p || is_shadow_parameter p ||
  is_bounds_check p || is_overflow_check p.

(** Number of stages of a kind in a sequence. *)
Definition count (kind : Pass -> bool) (l : list Pass) : nat :=
  List.length (filter kind l).

(** A stage of kind [f] occurs somewhere before a stage of kind [g]. *)
Definition precedes (f g : Pass -> bool) (l : list Pass) : Prop :=
  exists l1 a l2 b l3,
    l = l1 ++ a :: l2 ++ b :: l3 /\ f a = true /\ g b = true.

(** Stages of kinds [f], [g] and [h] occur in that order. *)
Definition in_order3 (f g h : Pass -> bool) (l : list Pass) : Prop :=
  exists l1 a l2 b l3 c l4,
    l = l1 ++ a :: l2 ++ b :: l3 ++ c :: l4 /\
    f a = true /\ g b = true /\ h c = true.

(** Every stage of kind [f] has a successor, and it is of kind [g]. *)
Fixpoint each_followed_by (f g : Pass -> bool) (l : list Pass) : bool :=
  match l with
  | [] => true
  | p :: rest =>
      (if f p
       then match rest with q :: _ => g q | [] => false end
       else true) && each_followed_by f g rest
  end.

(** The options that the pipeline description calls the configuration:
    the four flags, the four thresholds and the default layout. *)
Record PipelineConfiguration : Type := mkConfiguration {
  inlineAll : bool;
  insertBufferBoundsChecks : bool;
  insertIntegerOverflowChecks : bool;
  mixedSemantics : bool;
  sroaThresholds : Z * Z * Z * Z;
  defaultDataLayout : string
}.

Definition configuration_of (opts : Options) : PipelineConfiguration :=
  {| inlineAll := InlineAll opts;
     insertBufferBoundsChecks := BOC opts;
     insertIntegerOverflowChecks := IOC opts;
     mixedSemantics := MixedSem opts;
     sroaThresholds :=
       (SROA_Threshold opts, SROA_StructMemThreshold opts,
        SROA_ArrayElementThreshold opts, SROA_ScalarLoadThreshold opts);
     defaultDataLayout := DefaultDataLayout opts |}.

(** The layout that the description of [-default-data-layout] announces
    (line 59: "data layout string to use if not specified by module"). *)
Definition announced_data_layout (opts : Options) (module : Module)
  : option Pass :=
  if negb (empty (getDataLayout module)) then
    Some (DataLayout (getDataLayout module))
  else if negb (empty (DefaultDataLayout opts)) then
    Some (DataLayout (DefaultDataLayout opts))
  else None.

(** Events of a run that touch the output file. *)
Definition touches_output (e : Event) : bool :=
  match e with
  | OpenOutput _ | Keep _ => true
  | _ => false
  end.

Definition is_run (e : Event) : bool :=
  match e with Run _ _ => true | _ => false end.

(** The IR reader returned no module. *)
Definition parse_fails (env : Env) (opts : Options) : bool :=
  match ParseIRFile env (InputFilename opts) with
  | inr _ => true
  | inl _ => false
  end.

(** The module was read, the output file (if any) was opened without an
    error message, and the pass manager ran to completion. *)
Definition full_success (env : Env) (opts : Options) : bool :=
  match ParseIRFile env (InputFilename opts) with
  | inr _ => false
  | inl module =>
      (empty (OutputFilename opts) ||
       empty (tool_output_file env (OutputFilename opts))) &&
      run_completes env (pipeline opts module) module
  end.

(** ** [getFileName] (lines 97-104) *)

(** [c] is one of the characters of [chars]. *)
Definition occurs_in (c : ascii) (chars : string) : bool :=
  existsb (Ascii.eqb c) (list_ascii_of_string chars).

(** [std::string::find_last_of (chars)]: the index of the last character
    of [s] that is one of [chars]; [None] stands for [npos]. *)
Fixpoint find_last_of (s chars : string) : option nat :=
  match s with
  | EmptyString => None
  | String c r =>
      match find_last_of r chars with
      | Some i => Some (S i)
      | None => if occurs_in c chars then Some 0%nat else None
      end
  end.

(** [str.substr (0, n)]. *)
Definition substr0 (n : nat) (str : string) : string := substring 0 n str.

(** Removes the extension from a file name if there is one. *)
Definition getFileName (str : string) : string :=
  let filename := str in
  match find_last_of str "." with
  | Some lastdot => substr0 lastdot str
  | None => filename
  end.

(** No character of [s] is one of [chars]. *)
Definition free_of (chars s : string) : bool :=
  forallb (fun c => negb (occurs_in c chars)) (list_ascii_of_string s).

(** ** Changing one flag of the command line *)

Definition with_InlineAll (b : bool) (o : Options) : Options :=
  mkOptions (InputFilename o) (OutputFilename o) (OutputAssembly o)
    (DefaultDataLayout o) b (BOC o) (IOC o) (MixedSem o)
    (SROA_Threshold o) (SROA_StructMemThreshold o)
    (SROA_ArrayElementThreshold o) (SROA_ScalarLoadThreshold o).

Definition with_BOC (b : bool) (o : Options) : Options :=
  mkOptions (InputFilename o) (OutputFilename o) (OutputAssembly o)
    (DefaultDataLayout o) (InlineAll o) b (IOC o) (MixedSem o)
    (SROA_Threshold o) (SROA_StructMemThreshold o)
    (SROA_ArrayElementThreshold o) (SROA_ScalarLoadThreshold o).

Definition with_IOC (b : bool) (o : Options) : Options :=
  mkOptions (InputFilename o) (OutputFilename o) (OutputAssembly o)
    (DefaultDataLayout o) (InlineAll o) (BOC o) b (MixedSem o)
    (SROA_Threshold o) (SROA_StructMemThreshold o)
    (SROA_ArrayElementThreshold o) (SROA_ScalarLoadThreshold o).

Definition with_MixedSem (b : bool) (o : Options) : Options :=
  mkOptions (InputFilename o) (OutputFilename o) (OutputAssembly o)
    (DefaultDataLayout o) (InlineAll o) (BOC o) (IOC o) b
    (SROA_Threshold o) (SROA_StructMemThreshold o)
    (SROA_ArrayElementThreshold o) (SROA_ScalarLoadThreshold o).

(** Every stage of kind [f] comes after some stage of kind [g]; [seen]
    tells whether a stage of kind [g] was met already. *)
Fixpoint each_preceded_by (seen : bool) (f g : Pass -> bool)
  (l : list Pass) : bool :=
  match l with
  | [] => true
  | p :: rest =>
      (if f p then seen else true) &&
      each_preceded_by (seen || g p) f g rest
  end.

Definition is_exit_unification (p : Pass) : bool :=
  match p with UnifyFunctionExitNodesPass => true | _ => false end.

Definition is_inliner (p : Pass) : bool :=
  match p with AlwaysInlinerPass => true | _ => false end.

(** A stage that carries the inlining flag carries the value [b]. *)
Definition carries_flag (b : bool) (p : Pass) : bool :=
  match p with
  | BufferBoundsCheck b' | IntegerOverflowCheck b' => Bool.eqb b' b
  | _ => true
  end.

(** ** The construction, statement by statement

    A second reading of lines 153-253, as a machine: a state is the line
    of the next statement together with the queue built so far, and
    every [pass_manager.add] and every [if] is one step.  [L160] is the
    addition of the layout chosen by lines 154-159, [L255] the call of
    [pass_manager.run], where the construction is over. *)
Inductive Loc : Type :=
| L160 | L163 | L166 | L168 | L174 | L176 | L179 | L180 | L183
| L189 | L192 | L193 | L196 | L198 | L200 | L201 | L203 | L205
| L206 | L207 | L210 | L211 | L212 | L214 | L215 | L217 | L219
| L220 | L222 | L223 | L224 | L228 | L231 | L233 | L234 | L237
| L239 | L241 | L242 | L245 | L247 | L249 | L250 | L252 | L255.

Inductive step (opts : Options) (module : Module)
  : Loc * PassManager -> Loc * PassManager -> Prop :=
| step_160_add (dl : Pass) (q : PassManager) :
    select_data_layout opts module = Some dl ->
    step opts module (L160, q) (L163, q ++ [dl])
| step_160_skip (q : PassManager) :
    select_data_layout opts module = None ->
    step opts module (L160, q) (L163, q)
| step_163 (q : PassManager) :
    step opts module (L163, q)
      (L166, q ++ [PromoteVerifierCalls])
| step_166 (q : PassManager) :
    step opts module (L166, q)
      (L168, q ++ [InternalizePass ["main"%string]])
| step_168 (q : PassManager) :
    step opts module (L168, q)
      (L174, q ++ [GlobalDCEPass])
| step_174 (q : PassManager) :
    step opts module (L174, q)
      (L176, q ++ [PromoteMemoryToRegisterPass])
| step_176 (q : PassManager) :
    step opts module (L176, q)
      (L179, q ++ [NondetInitPass])
| step_179 (q : PassManager) :
    step opts module (L179, q)
      (L180, q ++ [InstructionCombiningPass])
| step_180 (q : PassManager) :
    step opts module (L180, q)
      (L183, q ++ [CFGSimplificationPass])
| step_183 (q : PassManager) :
    step opts module (L183, q)
      (L189, q ++ [ScalarReplAggregatesPass (SROA_Threshold opts) true
                    (SROA_StructMemThreshold opts)
                    (SROA_ArrayElementThreshold opts)
                    (SROA_ScalarLoadThreshold opts)])
| step_189 (q : PassManager) :
    step opts module (L189, q)
      (L192, q ++ [NondetInitPass])
| step_192 (q : PassManager) :
    step opts module (L192, q)
      (L193, q ++ [InstructionCombiningPass])
| step_193 (q : PassManager) :
    step opts module (L193, q)
      (L196, q ++ [CFGSimplificationPass])
| step_196 (q : PassManager) :
    step opts module (L196, q)
      (L198, q ++ [DeadNondetElimPass])
| step_198 (q : PassManager) :
    step opts module (L198, q)
      (L200, q ++ [LowerSwitchPass])
| step_200 (q : PassManager) :
    step opts module (L200, q)
      (L201, q ++ [DeadInstEliminationPass])
| step_201 (q : PassManager) :
    step opts module (L201, q)
      (L203, q ++ [RemoveUnreachableBlocksPass])
| step_203_then (q : PassManager) :
    InlineAll opts = true ->
    step opts module (L203, q) (L205, q)
| step_203_else (q : PassManager) :
    InlineAll opts = false ->
    step opts module (L203, q) (L210, q)
| step_205 (q : PassManager) :
    step opts module (L205, q)
      (L206, q ++ [MarkInternalInlinePass])
| step_206 (q : PassManager) :
    step opts module (L206, q)
      (L207, q ++ [AlwaysInlinerPass])
| step_207 (q : PassManager) :
    step opts module (L207, q)
      (L210, q ++ [GlobalDCEPass])
| step_210 (q : PassManager) :
    step opts module (L210, q)
      (L211, q ++ [RemoveUnreachableBlocksPass])
| step_211 (q : PassManager) :
    step opts module (L211, q)
      (L212, q ++ [DeadInstEliminationPass])
| step_212 (q : PassManager) :
    step opts module (L212, q)
      (L214, q ++ [GlobalDCEPass])
| step_214 (q : PassManager) :
    step opts module (L214, q)
      (L215, q ++ [LowerGvInitializers])
| step_215 (q : PassManager) :
    step opts module (L215, q)
      (L217, q ++ [UnifyFunctionExitNodesPass])
| step_217_then (q : PassManager) :
    BOC opts = true ->
    step opts module (L217, q) (L219, q)
| step_217_else (q : PassManager) :
    BOC opts = false ->
    step opts module (L217, q) (L231, q)
| step_219 (q : PassManager) :
    step opts module (L219, q)
      (L220, q ++ [LowerCstExprPass])
| step_220 (q : PassManager) :
    step opts module (L220, q)
      (L222, q ++ [CanAccessMemory])
| step_222_then (q : PassManager) :
    negb (InlineAll opts) = true ->
    step opts module (L222, q) (L223, q)
| step_222_else (q : PassManager) :
    negb (InlineAll opts) = false ->
    step opts module (L222, q) (L224, q)
| step_223 (q : PassManager) :
    step opts module (L223, q)
      (L224, q ++ [ShadowBufferBoundsCheckFuncPars])
| step_224 (q : PassManager) :
    step opts module (L224, q)
      (L228, q ++ [BufferBoundsCheck (InlineAll opts)])
| step_228 (q : PassManager) :
    step opts module (L228, q)
      (L231, q ++ [NondetInitPass])
| step_231_then (q : PassManager) :
    IOC opts = true ->
    step opts module (L231, q) (L233, q)
| step_231_else (q : PassManager) :
    IOC opts = false ->
    step opts module (L231, q) (L237, q)
| step_233 (q : PassManager) :
    step opts module (L233, q)
      (L234, q ++ [LowerCstExprPass])
| step_234 (q : PassManager) :
    step opts module (L234, q)
      (L237, q ++ [IntegerOverflowCheck (InlineAll opts)])
| step_237 (q : PassManager) :
    step opts module (L237, q)
      (L239, q ++ [RemoveUnreachableBlocksPass])
| step_239_then (q : PassManager) :
    MixedSem opts = true ->
    step opts module (L239, q) (L241, q)
| step_239_else (q : PassManager) :
    MixedSem opts = false ->
    step opts module (L239, q) (L245, q)
| step_241 (q : PassManager) :
    step opts module (L241, q)
      (L242, q ++ [MixedSemantics])
| step_242 (q : PassManager) :
    step opts module (L242, q)
      (L245, q ++ [RemoveUnreachableBlocksPass])
| step_245 (q : PassManager) :
    step opts module (L245, q)
      (L247, q ++ [VerifierPass])
| step_247_then (q : PassManager) :
    negb (empty (OutputFilename opts)) = true ->
    step opts module (L247, q) (L249, q)
| step_247_else (q : PassManager) :
    negb (empty (OutputFilename opts)) = false ->
    step opts module (L247, q) (L255, q)
| step_249_then (q : PassManager) :
    OutputAssembly opts = true ->
    step opts module (L249, q) (L250, q)
| step_249_else (q : PassManager) :
    OutputAssembly opts = false ->
    step opts module (L249, q) (L252, q)
| step_250 (q : PassManager) :
    step opts module (L250, q)
      (L255, q ++ [PrintModulePass (OutputFilename opts)])
| step_252 (q : PassManager) :
    step opts module (L252, q)
      (L255, q ++ [BitcodeWriterPass (OutputFilename opts)]).

(** Zero or more steps. *)
Inductive steps (opts : Options) (module : Module)
  : Loc * PassManager -> Loc * PassManager -> Prop :=
| steps_done (s : Loc * PassManager) : steps opts module s s
| steps_step (s s' s'' : Loc * PassManager) :
    step opts module s s' -> steps opts module s' s'' ->
    steps opts module s s''.

(** A construction: an execution from line 160, with the empty pass
    manager of line 146, to the call of [run]. *)
Definition builds (opts : Options) (module : Module) (q : PassManager)
  : Prop :=
  steps opts module (L160, []) (L255, q).

(** The output file is requested and its constructor reports an error. *)
Definition output_error (env : Env) (opts : Options) : bool :=
  negb (empty (OutputFilename opts)) &&
  negb (empty (tool_output_file env (OutputFilename opts))).

End SeaPP.

Module AeVal.

(** ** C strings and [int]

    An entry of [argv] is a NUL-terminated C string; it is represented by
    the characters before the terminator. *)

(** Conversion of an integer to a 32-bit [int] (two's complement). *)
Definition wrap32 (z : Z) : Z := (z + 2 ^ 31) mod 2 ^ 32 - 2 ^ 31.

Definition INT_MAX : Z := 2 ^ 31 - 1.

(** [strlen]: the result is a [size_t]. *)
Definition strlen (s : string) : Z := Z.of_nat (String.length s).

Definition byte_of (c : ascii) : Z := Z.of_N (N_of_ascii c).

(** [strcmp]: zero when the strings agree, otherwise the difference of the
    first two bytes that differ, the terminator counting as byte 0. *)
Fixpoint strcmp (s1 s2 : string) : Z :=
  match s1, s2 with
  | EmptyString, EmptyString => 0
  | EmptyString, String c2 _ => 0 - byte_of c2
  | String c1 _, EmptyString => byte_of c1
  | String c1 r1, String c2 r2 =>
      if Ascii.eqb c1 c2 then strcmp r1 r2 else byte_of c1 - byte_of c2
  end.

(** [s + k]: the string that starts [k] characters into [s]. *)
Fixpoint advance (k : nat) (s : string) : string :=
  match k, s with
  | O, _ => s
  | S k', String _ r => advance k' r
  | S _, EmptyString => EmptyString
  end.

(** The test of line 39 on one argument, [len] being the [int] that line
    38 stores. *)
Definition smt2_test (a : string) : bool :=
  let len := wrap32 (strlen a) in
  (5 <=? len) && (strcmp (advance (Z.to_nat (len - 5)) a) ".smt2" =? 0).

(** The [for] loop of lines 36-44, entered with the current values of [i]
    and [num1].  The outer [None] is a read of [argv] past its end; the
    inner one is the [NULL] of line 45.  [i] stays below [argc], so [i++]
    is exact; [num1++] is written with its conversion to [int]. *)
Equations? getSmtFileName_loop (num argc : Z) (argv : list string)
  (i num1 : Z) : option (option string) by wf (Z.to_nat (argc - i)) lt :=
getSmtFileName_loop num argc argv i num1 with Z_lt_dec i argc := {
  | right _ => Some None
  | left _ with nth_error argv (Z.to_nat i) := {
    | None => None
    | Some a with smt2_test a := {
      | true with Z.eq_dec num1 num := {
        | left _ => Some (Some a)
        | right _ =>
            getSmtFileName_loop num argc argv (i + 1) (wrap32 (num1 + 1)) }
      | false => getSmtFileName_loop num argc argv (i + 1) num1 } } }.
Proof. all: lia. Qed.

Definition getSmtFileName (num argc : Z) (argv : list string)
  : option (option string) :=
  getSmtFileName_loop num argc argv 1 1.

(** ** What the tool is meant to pick

    Written from the description of the command line, independently of
    the loop: the arguments after the program name that are at least five
    characters long and end in [.smt2], in order. *)
Definition ends_in (suffix s : string) : bool :=
  (String.length suffix <=? String.length s)%nat &&
  String.eqb
    (substring (String.length s - String.length suffix)
       (String.length suffix) s)
    suffix.

Definition is_smt2_name (a : string) : bool :=
  (5 <=? String.length a)%nat && ends_in ".smt2" a.

Definition smt2_arguments (argc : Z) (argv : list string) : list string :=
  filter is_smt2_name (firstn (Z.to_nat (argc - 1)) (skipn 1 argv)).

Definition nth_smt2_argument (n argc : Z) (argv : list string)
  : option string :=
  nth_error (smt2_arguments argc argv) (Z.to_nat (n - 1)).

(** [2 ^ k] copies of [s], one after the other. *)
Fixpoint doubled (k : nat) (s : string) : string :=
  match k with
  | O => s
  | S k' => doubled k' (s ++ s)
  end.

(** ** [getBoolValue] (lines 24-31) *)

(** The [for] loop of lines 26-29, entered with the current value of [i].
    [None] is a read of [argv] past its end. *)
Equations? getBoolValue_loop (opt : string) (defValue : bool) (argc : Z)
  (argv : list string) (i : Z) : option bool
  by wf (Z.to_nat (argc - i)) lt :=
getBoolValue_loop opt defValue argc argv i with Z_lt_dec i argc := {
  | right _ => Some defValue
  | left _ with nth_error argv (Z.to_nat i) := {
    | None => None
    | Some a with Z.eq_dec (strcmp a opt) 0 := {
      | left _ => Some true
      | right _ => getBoolValue_loop opt defValue argc argv (i + 1) } } }.
Proof. lia. Qed.

Definition getBoolValue (opt : string) (defValue : bool) (argc : Z)
  (argv : list string) : option bool :=
  getBoolValue_loop opt defValue argc argv 1.

(** A C string holds no NUL before its terminator. *)
Definition nul_free (s : string) : bool :=
  forallb (fun c => negb (Ascii.eqb c zero)) (list_ascii_of_string s).

(** The arguments after the program name. *)
Definition arguments (argc : Z) (argv : list string) : list string :=
  firstn (Z.to_nat (argc - 1)) (skipn 1 argv).

(** [opt] is one of the arguments. *)
Definition given (opt : string) (argc : Z) (argv : list string) : bool :=
  existsb (String.eqb opt) (arguments argc argv).

(** A well-formed argument vector: [argc] entries at least, each a C
    string of a length that fits an [int]. *)
Definition well_formed (argc : Z) (argv : list string) : Prop :=
  argc <= Z.of_nat (List.length argv) /\
  forallb nul_free argv = true /\
  forallb (fun a => strlen a <=? INT_MAX) argv = true.

(** The arguments that are neither [--skol] nor [--split]. *)
Definition neither_skol_nor_split (a : string) : bool :=
  negb (String.eqb a "--skol") && negb (String.eqb a "--split").

(** ** [main] (lines 48-69)

    The formula reader and the two solver entry points are code of other
    files: the reader is a parameter, and [main] is modelled up to the
    solver call it ends with. *)
Section Main.

Variable Expr : Type.
Variable z3_from_smtlib_file : option string -> Expr.

Inductive Call : Type :=
| getAllInclusiveSkolem (s t : Expr) (debug compact : bool)
| aeSolveAndSkolemize (s t : Expr) (skol debug compact split : bool).

Definition call_s (c : Call) : Expr :=
  match c with
  | getAllInclusiveSkolem s _ _ _ => s
  | aeSolveAndSkolemize s _ _ _ _ _ => s
  end.

Definition call_t (c : Call) : Expr :=
  match c with
  | getAllInclusiveSkolem _ t _ _ => t
  | aeSolveAndSkolemize _ t _ _ _ _ => t
  end.

Definition bind_option {A B : Type} (m : option A) (k : A -> option B)
  : option B :=
  match m with
  | Some a => k a
  | None => None
  end.

Notation "x <- m ;; k" := (bind_option m (fun x => k))
  (at level 62, m at next level, right associativity).

Definition main (argc : Z) (argv : list string) : option (Z * Call) :=
  skol <- getBoolValue "--skol" false argc argv ;;
  allincl <- getBoolValue "--all-inclusive" false argc argv ;;
  compact <- getBoolValue "--compact" false argc argv ;;
  debug <- getBoolValue "--debug" false argc argv ;;
  split <- getBoolValue "--split" false argc argv ;;
  s_name <- getSmtFileName 1 argc argv ;;
  t_name <- getSmtFileName 2 argc argv ;;
  let s := z3_from_smtlib_file s_name in
  let t := z3_from_smtlib_file t_name in
  if (allincl : bool)
  then Some (0, getAllInclusiveSkolem s t debug compact)
  else Some (0, aeSolveAndSkolemize s t skol debug compact split).

End Main.

End AeVal.

(** * Properties of the SeaPP pipeline *)

Section SeaPPFacts.

Import SeaPP.

(** ** Running the pass-manager monad *)

Lemma exec_seq (m k : PM unit) (pm : PassManager) :
  exec (m ;; k) pm = exec k (exec m pm).
Proof.
  unfold exec, bind. destruct (m pm) as [u pm']. reflexivity.
Qed.

Lemma exec_add (p : Pass) (pm : PassManager) :
  exec (add p) pm = pm ++ [p].
Proof. reflexivity. Qed.

Lemma exec_ret (pm : PassManager) : exec (ret tt) pm = pm.
Proof. reflexivity. Qed.

Lemma exec_when (b : bool) (m : PM unit) (pm : PassManager) :
  exec (when b m) pm = if b then exec m pm else pm.
Proof. destruct b; reflexivity. Qed.

Lemma exec_if (b : bool) (m1 m2 : PM unit) (pm : PassManager) :
  exec (if b then m1 else m2) pm = if b then exec m1 pm else exec m2 pm.
Proof. destruct b; reflexivity. Qed.

Lemma exec_layout (opts : Options) (module : Module) (pm : PassManager) :
  exec (match select_data_layout opts module with
        | Some dl => add dl
        | None => ret tt
        end) pm = pm ++ layout_stage opts module.
Proof.
  unfold layout_stage.
  destruct (select_data_layout opts module); cbn.
  - reflexivity.
  - now rewrite app_nil_r.
Qed.

(** The queue is the concatenation of the blocks of [main]. *)
Lemma pipeline_blocks (opts : Options) (module : Module) :
  pipeline opts module =
  layout_stage opts module ++ normalization_stages opts ++
  inline_stages opts ++ cleanup_stages ++
  boc_stages opts ++ ioc_stages opts ++ [RemoveUnreachableBlocksPass] ++
  mixed_stages opts ++ [VerifierPass] ++ output_stages opts.
Proof.
  unfold pipeline, add_passes.
  rewrite exec_seq, exec_layout.
  repeat (rewrite ?exec_seq, ?exec_when, ?exec_if, ?exec_add).
  unfold inline_stages, boc_stages, ioc_stages, mixed_stages, output_stages,
    normalization_stages, cleanup_stages.
  destruct (layout_stage opts module) as [|dl rest];
    destruct (InlineAll opts), (BOC opts), (IOC opts), (MixedSem opts),
      (negb (empty (OutputFilename opts))), (OutputAssembly opts);
    cbn [negb app]; rewrite <- ?app_assoc; reflexivity.
Qed.

End SeaPPFacts.

Section SeaPPCounting.

Import SeaPP.

Lemma count_app (kind : Pass -> bool) (l1 l2 : list Pass) :
  count kind (l1 ++ l2) = (count kind l1 + count kind l2)%nat.
Proof.
  unfold count. now rewrite filter_app, length_app.
Qed.

Lemma count_cons (kind : Pass -> bool) (p : Pass) (l : list Pass) :
  count kind (p :: l) = ((if kind p then 1 else 0) + count kind l)%nat.
Proof.
  unfold count. cbn [filter]. destruct (kind p); reflexivity.
Qed.

Lemma count_zero_not_in (kind : Pass -> bool) (l : list Pass) (p : Pass) :
  count kind l = 0%nat -> kind p = true -> ~ In p l.
Proof.
  unfold count. intros Hc Hk Hin.
  assert (Hf : In p (filter kind l)) by (apply filter_In; auto).
  destruct (filter kind l); [contradiction | discriminate].
Qed.

(** Three stages in order, the first and the last of one kind, need two
    stages of that kind. *)
Lemma in_order3_count (f g : Pass -> bool) (l : list Pass) :
  in_order3 f g f l -> (2 <= count f l)%nat.
Proof.
  intros (l1 & a & l2 & b & l3 & c & l4 & -> & Ha & _ & Hc).
  rewrite count_app, count_cons, count_app, count_cons, count_app, count_cons.
  rewrite Ha, Hc. lia.
Qed.

(** Counts of a kind of stage, block by block. *)
Lemma count_pipeline (kind : Pass -> bool) (opts : Options)
    (module : Module) :
  count kind (pipeline opts module) =
  (count kind (layout_stage opts module) +
   count kind (normalization_stages opts) +
   count kind (inline_stages opts) + count kind cleanup_stages +
   count kind (boc_stages opts) + count kind (ioc_stages opts) +
   count kind [RemoveUnreachableBlocksPass] +
   count kind (mixed_stages opts) + count kind [VerifierPass] +
   count kind (output_stages opts))%nat.
Proof.
  rewrite pipeline_blocks, !count_app. lia.
Qed.

(** The layout block holds at most one pass, and it is a [DataLayout]. *)
Lemma layout_stage_cases (opts : Options) (module : Module) :
  layout_stage opts module = [] \/
  layout_stage opts module = [DataLayout (getDataLayout module)].
Proof.
  unfold layout_stage, select_data_layout.
  destruct (negb (empty (getDataLayout module)));
    [| destruct (negb (empty (DefaultDataLayout opts)))]; auto.
Qed.

Lemma count_layout_stage (kind : Pass -> bool) (opts : Options)
    (module : Module) :
  (forall s, kind (DataLayout s) = false) ->
  count kind (layout_stage opts module) = 0%nat.
Proof.
  intros Hk. destruct (layout_stage_cases opts module) as [-> | ->].
  - reflexivity.
  - rewrite count_cons, Hk. reflexivity.
Qed.

Lemma count_output_stages (kind : Pass -> bool) (opts : Options) :
  (forall s, kind (PrintModulePass s) = false) ->
  (forall s, kind (BitcodeWriterPass s) = false) ->
  count kind (output_stages opts) = 0%nat.
Proof.
  intros Hp Hb. unfold output_stages.
  destruct (negb (empty (OutputFilename opts))); [| reflexivity].
  rewrite count_cons.
  destruct (OutputAssembly opts); rewrite ?Hp, ?Hb; reflexivity.
Qed.

End SeaPPCounting.

(** Counting one kind of stage in the queue: split into blocks, settle the
    two blocks that carry strings, and compute the rest by cases on the
    flags. *)
Ltac count_stages opts :=
  rewrite count_pipeline;
  rewrite count_layout_stage by reflexivity;
  rewrite count_output_stages by reflexivity;
  unfold SeaPP.inline_stages, SeaPP.boc_stages, SeaPP.ioc_stages,
    SeaPP.mixed_stages;
  destruct (SeaPP.InlineAll opts), (SeaPP.BOC opts), (SeaPP.IOC opts),
    (SeaPP.MixedSem opts);
  try discriminate; try reflexivity.

Section SeaPPClaims.

Import SeaPP.

(** ** Data layout *)

(** With a module that declares no layout, the [DataLayout] pass, when
    there is one, is built from the empty string, whatever
    [-default-data-layout] holds. *)
Lemma default_layout_unused (opts : Options) (module : Module) :
  empty (getDataLayout module) = true ->
  layout_stage opts module =
  if empty (DefaultDataLayout opts) then [] else [DataLayout ""].
Proof.
  unfold layout_stage, select_data_layout. intros He. rewrite He. cbn.
  destruct (getDataLayout module); [| discriminate].
  destruct (empty (DefaultDataLayout opts)); reflexivity.
Qed.

(** C1 (the code departs from the claim).  Claim: when the module's own
    layout string is empty and [-default-data-layout] is not, the
    [DataLayout] pass is built from the default string.  Here the code is
    run on a module without layout and the default ["e-p:64:64:64"]: the
    pass that heads the queue is [DataLayout ""], built from the module's
    empty string, where the option's description announces
    [DataLayout "e-p:64:64:64"], which is nowhere in the queue. *)
Theorem C1_default_layout_not_applied :
  let opts :=
    mkOptions "prog.bc" "" false "e-p:64:64:64" false false false false
      INT_MAX INT_MAX INT_MAX (-1) in
  let module := mkModule "" in
  select_data_layout opts module = Some (DataLayout "") /\
  announced_data_layout opts module = Some (DataLayout "e-p:64:64:64") /\
  hd_error (pipeline opts module) = Some (DataLayout "") /\
  ~ In (DataLayout "e-p:64:64:64") (pipeline opts module).
Proof.
  cbv zeta. repeat split; try reflexivity.
  intros Hin. vm_compute in Hin.
  repeat (destruct Hin as [Hin | Hin]; [discriminate Hin |]).
  exact Hin.
Qed.

(** ** Constant-expression lowering *)

(** C2, as claimed, fails: with [-boc] and [-ioc] both given the queue
    holds two [LowerCstExprPass], not one. *)
Lemma C2_lowering_not_shared :
  let opts :=
    mkOptions "prog.bc" "" false "" false true true false
      INT_MAX INT_MAX INT_MAX (-1) in
  BOC opts = true /\ IOC opts = true /\
  count is_cst_expr_lowering (pipeline opts (mkModule "")) <> 1%nat.
Proof.
  cbv zeta. repeat split; try reflexivity.
  vm_compute. discriminate.
Qed.

(** C2, amended.  With both [-boc] and [-ioc], the queue holds exactly two
    constant-expression-lowering stages: one opens the bounds-check chain
    and one opens the overflow-check chain, right before
    [IntegerOverflowCheck]. *)
Theorem C2_each_chain_lowers (opts : Options) (module : Module) :
  BOC opts = true -> IOC opts = true ->
  count is_cst_expr_lowering (pipeline opts module) = 2%nat /\
  exists l1 l2 l3,
    pipeline opts module =
    l1 ++ [LowerCstExprPass; CanAccessMemory] ++ l2 ++
    [BufferBoundsCheck (InlineAll opts); NondetInitPass;
     LowerCstExprPass; IntegerOverflowCheck (InlineAll opts)] ++ l3 /\
    count is_cst_expr_lowering l1 = 0%nat /\
    count is_cst_expr_lowering l2 = 0%nat /\
    count is_cst_expr_lowering l3 = 0%nat.
Proof.
  intros Hboc Hioc. split.
  - count_stages opts.
  - exists (layout_stage opts module ++ normalization_stages opts ++
            inline_stages opts ++ cleanup_stages),
      (if negb (InlineAll opts) then [ShadowBufferBoundsCheckFuncPars]
       else []),
      ([RemoveUnreachableBlocksPass] ++ mixed_stages opts ++
       [VerifierPass] ++ output_stages opts).
    split; [| split; [| split]].
    + rewrite pipeline_blocks. unfold boc_stages, ioc_stages.
      rewrite Hboc, Hioc. rewrite <- !app_assoc. reflexivity.
    + rewrite !count_app, count_layout_stage by reflexivity.
      unfold inline_stages. destruct (InlineAll opts); reflexivity.
    + destruct (InlineAll opts); reflexivity.
    + rewrite !count_app, count_output_stages by reflexivity.
      unfold mixed_stages. destruct (MixedSem opts); reflexivity.
Qed.

(** The amended C2 at [-boc -ioc -horn-inline-all -o out.bc]. *)
Lemma C2_each_chain_lowers_witness :
  let opts :=
    mkOptions "prog.bc" "out.bc" false "" true true true false
      INT_MAX INT_MAX INT_MAX (-1) in
  BOC opts = true /\ IOC opts = true /\
  count is_cst_expr_lowering (pipeline opts (mkModule "")) = 2%nat.
Proof.
  cbv zeta. split; [reflexivity | split; [reflexivity |]].
  apply (C2_each_chain_lowers
           (mkOptions "prog.bc" "out.bc" false "" true true true false
              INT_MAX INT_MAX INT_MAX (-1)) (mkModule "")); reflexivity.
Defined.

(** ** Promotion and decomposition *)

(** C3, as claimed, fails: with the default options the queue has no
    promotion stage after the aggregate decomposition, so no promotion,
    decomposition, promotion in that order. *)
Lemma C3_no_second_promotion :
  ~ in_order3 is_ssa_promotion is_aggregate_decomposition is_ssa_promotion
      (pipeline (default_options "prog.bc") (mkModule "")).
Proof.
  intros H. apply in_order3_count in H. vm_compute in H. lia.
Qed.

(** C3, amended.  For every configuration the queue holds exactly one
    SSA-promotion stage and exactly one aggregate-decomposition stage, the
    promotion before the decomposition; the decomposition receives the
    four thresholds of the command line and is not followed by another
    promotion stage. *)
Theorem C3_promotion_then_decomposition (opts : Options) (module : Module) :
  count is_ssa_promotion (pipeline opts module) = 1%nat /\
  count is_aggregate_decomposition (pipeline opts module) = 1%nat /\
  exists l1 l2 l3,
    pipeline opts module =
    l1 ++ PromoteMemoryToRegisterPass :: l2 ++
    ScalarReplAggregatesPass (SROA_Threshold opts) true
      (SROA_StructMemThreshold opts) (SROA_ArrayElementThreshold opts)
      (SROA_ScalarLoadThreshold opts) :: l3 /\
    count is_ssa_promotion l3 = 0%nat.
Proof.
  split; [| split].
  - count_stages opts.
  - count_stages opts.
  - exists (layout_stage opts module ++
            [PromoteVerifierCalls; InternalizePass ["main"%string];
             GlobalDCEPass]),
      [NondetInitPass; InstructionCombiningPass; CFGSimplificationPass],
      ([NondetInitPass; InstructionCombiningPass; CFGSimplificationPass;
        DeadNondetElimPass; LowerSwitchPass; DeadInstEliminationPass;
        RemoveUnreachableBlocksPass] ++
       inline_stages opts ++ cleanup_stages ++ boc_stages opts ++
       ioc_stages opts ++ [RemoveUnreachableBlocksPass] ++
       mixed_stages opts ++ [VerifierPass] ++ output_stages opts).
    split.
    + rewrite pipeline_blocks. unfold normalization_stages.
      rewrite <- !app_assoc. reflexivity.
    + rewrite !count_app, count_output_stages by reflexivity.
      unfold inline_stages, boc_stages, ioc_stages, mixed_stages.
      destruct (InlineAll opts), (BOC opts), (IOC opts), (MixedSem opts);
        reflexivity.
Qed.

(** ** The verifier *)

(** C4, as claimed, fails: with [-o out.bc] the bitcode writer is added
    after the verifier, which is then not the last stage. *)
Lemma C4_writer_follows_verifier :
  let opts :=
    mkOptions "prog.bc" "out.bc" false "" false false false false
      INT_MAX INT_MAX INT_MAX (-1) in
  last (pipeline opts (mkModule "")) VerifierPass =
    BitcodeWriterPass "out.bc" /\
  ~ exists l, pipeline opts (mkModule "") = l ++ [VerifierPass].
Proof.
  cbv zeta. split; [reflexivity |].
  intros [l Hl].
  assert (H : last (l ++ [VerifierPass]) VerifierPass = VerifierPass)
    by apply last_last.
  rewrite <- Hl in H. vm_compute in H. discriminate H.
Qed.

(** C4, amended.  The queue holds exactly one verifier stage, and it
    follows every transformation stage: it is the last stage when no output
    file is requested, and otherwise only the stage that writes the
    module out (the printer under [-S], the bitcode writer without)
    comes after it. *)
Theorem C4_verifier_then_output (opts : Options) (module : Module) :
  count is_verifier (pipeline opts module) = 1%nat /\
  exists l,
    pipeline opts module =
    l ++ VerifierPass ::
      (if empty (OutputFilename opts) then []
       else if OutputAssembly opts
            then [PrintModulePass (OutputFilename opts)]
            else [BitcodeWriterPass (OutputFilename opts)]).
Proof.
  split.
  - count_stages opts.
  - exists (layout_stage opts module ++ normalization_stages opts ++
            inline_stages opts ++ cleanup_stages ++ boc_stages opts ++
            ioc_stages opts ++ [RemoveUnreachableBlocksPass] ++
            mixed_stages opts).
    rewrite pipeline_blocks. unfold output_stages.
    rewrite <- !app_assoc.
    destruct (empty (OutputFilename opts)), (OutputAssembly opts);
      reflexivity.
Qed.

(** ** Instrumentation *)

(** C5.  With [-boc]: without [-horn-inline-all] the queue holds the
    shadow-parameter pass exactly once, right before the one
    bounds-check stage, so it precedes it; with [-horn-inline-all] the
    queue holds no shadow-parameter pass. *)
Theorem C5_shadow_parameters (opts : Options) (module : Module) :
  BOC opts = true ->
  (InlineAll opts = false ->
   precedes is_shadow_parameter is_bounds_check (pipeline opts module) /\
   exists l1 l2,
     pipeline opts module =
     l1 ++ ShadowBufferBoundsCheckFuncPars ::
       BufferBoundsCheck false :: l2 /\
     count is_shadow_parameter l1 = 0%nat /\
     count is_bounds_check l1 = 0%nat /\
     count is_shadow_parameter l2 = 0%nat /\
     count is_bounds_check l2 = 0%nat) /\
  (InlineAll opts = true ->
   count is_shadow_parameter (pipeline opts module) = 0%nat /\
   ~ In ShadowBufferBoundsCheckFuncPars (pipeline opts module) /\
   In (BufferBoundsCheck true) (pipeline opts module)).
Proof.
  intros Hboc. split; intros Hinl.
  - pose (l1 := layout_stage opts module ++ normalization_stages opts ++
                cleanup_stages ++ [LowerCstExprPass; CanAccessMemory]).
    pose (l2 := [NondetInitPass] ++ ioc_stages opts ++
                [RemoveUnreachableBlocksPass] ++ mixed_stages opts ++
                [VerifierPass] ++ output_stages opts).
    assert (Heq : pipeline opts module =
                  l1 ++ ShadowBufferBoundsCheckFuncPars ::
                    BufferBoundsCheck false :: l2).
    { rewrite pipeline_blocks. unfold l1, l2, inline_stages, boc_stages.
      rewrite Hboc, Hinl. cbn [negb app]. rewrite <- !app_assoc.
      reflexivity. }
    split.
    + exists l1, ShadowBufferBoundsCheckFuncPars, [],
        (BufferBoundsCheck false), l2.
      split; [exact Heq | split; reflexivity].
    + exists l1, l2. split; [exact Heq |].
      unfold l1, l2.
      rewrite !count_app, !count_layout_stage, !count_output_stages
        by reflexivity.
      unfold ioc_stages, mixed_stages.
      destruct (IOC opts), (MixedSem opts); repeat split; reflexivity.
  - assert (Hc : count is_shadow_parameter (pipeline opts module) = 0%nat)
      by (count_stages opts).
    split; [exact Hc | split].
    + apply (count_zero_not_in is_shadow_parameter); [exact Hc | reflexivity].
    + rewrite pipeline_blocks. unfold boc_stages. rewrite Hboc, Hinl.
      rewrite !in_app_iff. do 4 right. left. cbn. auto.
Qed.

(** C5 at [-boc] and at [-boc -horn-inline-all]. *)
Lemma C5_shadow_parameters_witness :
  let plain :=
    mkOptions "prog.bc" "" false "" false true false false
      INT_MAX INT_MAX INT_MAX (-1) in
  let inlined :=
    mkOptions "prog.bc" "" false "" true true false false
      INT_MAX INT_MAX INT_MAX (-1) in
  (BOC plain = true /\ InlineAll plain = false /\
   precedes is_shadow_parameter is_bounds_check
     (pipeline plain (mkModule ""))) /\
  (BOC inlined = true /\ InlineAll inlined = true /\
   ~ In ShadowBufferBoundsCheckFuncPars (pipeline inlined (mkModule ""))).
Proof.
  cbv zeta. split.
  - split; [reflexivity | split; [reflexivity |]].
    apply (C5_shadow_parameters
             (mkOptions "prog.bc" "" false "" false true false false
                INT_MAX INT_MAX INT_MAX (-1)) (mkModule ""));
      reflexivity.
  - split; [reflexivity | split; [reflexivity |]].
    apply (C5_shadow_parameters
             (mkOptions "prog.bc" "" false "" true true false false
                INT_MAX INT_MAX INT_MAX (-1)) (mkModule ""));
      reflexivity.
Defined.

(** C6.  With neither [-boc] nor [-ioc] the queue holds no instrumentation
    stage: no constant-expression lowering, no shadow-parameter pass, no
    bounds-check stage and no overflow-check stage. *)
Theorem C6_no_instrumentation (opts : Options) (module : Module) :
  BOC opts = false -> IOC opts = false ->
  count is_instrumentation (pipeline opts module) = 0%nat /\
  count is_cst_expr_lowering (pipeline opts module) = 0%nat /\
  count is_shadow_parameter (pipeline opts module) = 0%nat /\
  count is_bounds_check (pipeline opts module) = 0%nat /\
  count is_overflow_check (pipeline opts module) = 0%nat.
Proof.
  intros Hboc Hioc. repeat split; count_stages opts.
Qed.

(** C6 at [-horn-inline-all -horn-mixed-sem -S -o out.ll], on a module
    that declares a layout. *)
Lemma C6_no_instrumentation_witness :
  let opts :=
    mkOptions "prog.bc" "out.ll" true "" true false false true
      INT_MAX INT_MAX INT_MAX (-1) in
  BOC opts = false /\ IOC opts = false /\
  count is_instrumentation (pipeline opts (mkModule "e-p:64:64:64")) = 0%nat.
Proof.
  cbv zeta. split; [reflexivity | split; [reflexivity |]].
  apply (C6_no_instrumentation
           (mkOptions "prog.bc" "out.ll" true "" true false false true
              INT_MAX INT_MAX INT_MAX (-1)) (mkModule "e-p:64:64:64"));
    reflexivity.
Defined.

(** ** Undefined values *)

(** What [each_followed_by] says of a sequence. *)
Lemma each_followed_by_spec (f g : Pass -> bool) (l : list Pass) :
  each_followed_by f g l = true ->
  forall l1 p rest, l = l1 ++ p :: rest -> f p = true ->
  exists q l2, rest = q :: l2 /\ g q = true.
Proof.
  intros H l1. revert l H.
  induction l1 as [| x l1 IH]; intros l H p rest -> Hf; cbn in H;
    apply andb_true_iff in H as [Hhd Htl].
  - rewrite Hf in Hhd. destruct rest as [| q l2]; [discriminate |].
    now exists q, l2.
  - now apply (IH _ Htl p rest).
Qed.

(** With every guard of [main] off, the queue is the unconditional part. *)
Lemma pipeline_all_guards_off (opts : Options) (module : Module) :
  empty (getDataLayout module) = true ->
  empty (DefaultDataLayout opts) = true ->
  InlineAll opts = false -> BOC opts = false -> IOC opts = false ->
  MixedSem opts = false -> empty (OutputFilename opts) = true ->
  pipeline opts module = unconditional_part opts.
Proof.
  intros Hm Hd Hinl Hboc Hioc Hmix Hout.
  rewrite pipeline_blocks.
  unfold layout_stage, select_data_layout, inline_stages, boc_stages,
    ioc_stages, mixed_stages, output_stages, unconditional_part.
  rewrite Hm, Hd, Hinl, Hboc, Hioc, Hmix, Hout. reflexivity.
Qed.

(** C7.  For every configuration the nondet-initialisation stage comes
    right after the first (and only) SSA-promotion stage and right after
    the aggregate-decomposition stage, nothing in between; the
    unconditional part of the queue holds it exactly twice (a third one
    belongs to the [-boc] block). *)
Theorem C7_nondet_after_promotion (opts : Options) (module : Module) :
  (exists l1 l2 l3,
     pipeline opts module =
     l1 ++ [PromoteMemoryToRegisterPass; NondetInitPass] ++ l2 ++
     [ScalarReplAggregatesPass (SROA_Threshold opts) true
        (SROA_StructMemThreshold opts) (SROA_ArrayElementThreshold opts)
        (SROA_ScalarLoadThreshold opts); NondetInitPass] ++ l3 /\
     count is_ssa_promotion l1 = 0%nat /\
     count is_aggregate_decomposition (l1 ++ l2) = 0%nat) /\
  each_followed_by
    (fun p => is_ssa_promotion p || is_aggregate_decomposition p)
    is_nondet_init (pipeline opts module) = true /\
  count is_nondet_init (unconditional_part opts) = 2%nat /\
  count is_nondet_init (pipeline opts module) =
    (2 + if BOC opts then 1 else 0)%nat.
Proof.
  split; [| split; [| split]].
  - exists (layout_stage opts module ++
            [PromoteVerifierCalls; InternalizePass ["main"%string];
             GlobalDCEPass]),
      [InstructionCombiningPass; CFGSimplificationPass],
      ([InstructionCombiningPass; CFGSimplificationPass;
        DeadNondetElimPass; LowerSwitchPass; DeadInstEliminationPass;
        RemoveUnreachableBlocksPass] ++
       inline_stages opts ++ cleanup_stages ++ boc_stages opts ++
       ioc_stages opts ++ [RemoveUnreachableBlocksPass] ++
       mixed_stages opts ++ [VerifierPass] ++ output_stages opts).
    split; [| split].
    + rewrite pipeline_blocks. unfold normalization_stages.
      rewrite <- !app_assoc. reflexivity.
    + rewrite count_app, count_layout_stage by reflexivity. reflexivity.
    + rewrite !count_app, count_layout_stage by reflexivity. reflexivity.
  - rewrite pipeline_blocks.
    unfold inline_stages, boc_stages, ioc_stages, mixed_stages,
      output_stages.
    destruct (layout_stage_cases opts module) as [-> | ->];
      destruct (InlineAll opts), (BOC opts), (IOC opts), (MixedSem opts),
        (negb (empty (OutputFilename opts))), (OutputAssembly opts);
      reflexivity.
  - reflexivity.
  - count_stages opts.
Qed.

(** ** Exit codes *)

Lemma report_leaves_output (env : Env) (msg : string) :
  existsb touches_output (report env msg) = false /\
  existsb is_run (report env msg) = false.
Proof.
  unfold report. destruct (errs_has_colors env); split; reflexivity.
Qed.

(** C8.  When the IR reader returns no module, [main] returns 3 and its
    run neither opens nor keeps an output file (and runs no pass); an
    output file is opened only in runs where the module was read, and it
    is the file of [-o]; when the module is read, the output file (if
    any) opens without error and the passes run to completion, [main]
    returns 0. *)
Theorem C8_exit_codes (env : Env) (opts : Options) :
  (parse_fails env opts = true ->
   fst (main env opts) = Exit 3 /\
   existsb touches_output (snd (main env opts)) = false /\
   existsb is_run (snd (main env opts)) = false) /\
  (forall path, In (OpenOutput path) (snd (main env opts)) ->
   parse_fails env opts = false /\ path = OutputFilename opts) /\
  (full_success env opts = true -> fst (main env opts) = Exit 0).
Proof.
  unfold parse_fails, full_success, main.
  destruct (ParseIRFile env (InputFilename opts)) as [module | err].
  - split; [discriminate | split].
    + intros path Hin. split; [reflexivity |].
      destruct (negb (empty (OutputFilename opts)));
        [destruct (negb (empty (tool_output_file env _))) |];
        try destruct (run_completes env _ module);
        cbn [snd app] in Hin;
        unfold report in Hin; destruct (errs_has_colors env);
        cbn in Hin;
        repeat (destruct Hin as [Hin | Hin];
                [first [now inversion Hin | discriminate Hin] |]);
        contradiction.
    + intros H. apply andb_true_iff in H as [Hopen Hrun].
      destruct (empty (OutputFilename opts)); cbn [negb].
      * rewrite Hrun. reflexivity.
      * cbn [orb] in Hopen. rewrite Hopen. cbn [negb]. rewrite Hrun.
        reflexivity.
  - split; [| split].
    + intros _. cbn [fst snd].
      destruct (report_leaves_output env
                  ("Bitcode was not properly read; " ++ err)%string).
      auto.
    + intros path Hin. cbn [snd] in Hin.
      destruct (report_leaves_output env
                  ("Bitcode was not properly read; " ++ err)%string)
        as [Hno _].
      assert (Hyes : existsb touches_output
                (report env ("Bitcode was not properly read; " ++ err)%string)
              = true).
      { apply existsb_exists. exists (OpenOutput path). auto. }
      congruence.
    + discriminate.
Qed.

(** C8 in a run whose input does not parse and in a run that succeeds. *)
Lemma C8_exit_codes_witness :
  let broken :=
    mkEnv (fun _ => inr "expected top-level entity"%string)
      (fun _ => EmptyString) true (fun _ _ => true) in
  let sound :=
    mkEnv (fun _ => inl (mkModule "e-p:64:64:64"))
      (fun _ => EmptyString) false (fun _ _ => true) in
  let opts :=
    mkOptions "prog.bc" "out.bc" false "" false true false false
      INT_MAX INT_MAX INT_MAX (-1) in
  (parse_fails broken opts = true /\
   fst (main broken opts) = Exit 3 /\
   existsb touches_output (snd (main broken opts)) = false) /\
  (full_success sound opts = true /\ fst (main sound opts) = Exit 0).
Proof.
  cbv zeta. split.
  - split; [reflexivity |].
    pose proof (C8_exit_codes
      (mkEnv (fun _ => inr "expected top-level entity"%string)
         (fun _ => EmptyString) true (fun _ _ => true))
      (mkOptions "prog.bc" "out.bc" false "" false true false false
         INT_MAX INT_MAX INT_MAX (-1))) as [Hfail _].
    destruct (Hfail eq_refl) as [Hcode [Hout _]]. split; assumption.
  - split; [reflexivity |].
    apply (C8_exit_codes
      (mkEnv (fun _ => inl (mkModule "e-p:64:64:64"))
         (fun _ => EmptyString) false (fun _ _ => true))
      (mkOptions "prog.bc" "out.bc" false "" false true false false
         INT_MAX INT_MAX INT_MAX (-1))).
    reflexivity.
Defined.

(** ** Determinism *)

(** The queue reads the options through the configuration and the
    output options only, and the module through its layout string. *)
Lemma pipeline_same_inputs (opts1 opts2 : Options) (m1 m2 : Module) :
  configuration_of opts1 = configuration_of opts2 ->
  getDataLayout m1 = getDataLayout m2 ->
  OutputFilename opts1 = OutputFilename opts2 ->
  OutputAssembly opts1 = OutputAssembly opts2 ->
  pipeline opts1 m1 = pipeline opts2 m2.
Proof.
  destruct opts1, opts2, m1, m2. unfold configuration_of. cbn.
  intros Hcfg Hm Hout Hasm. injection Hcfg as -> -> -> -> -> -> -> -> ->.
  subst. reflexivity.
Qed.

(** From a state, at most one step. *)
Lemma step_deterministic (opts : Options) (module : Module)
    (s s1 s2 : Loc * PassManager) :
  step opts module s s1 -> step opts module s s2 -> s1 = s2.
Proof.
  intros H1 H2.
  inversion H1; subst; inversion H2; subst;
    solve [reflexivity | congruence].
Qed.

(** At the call of [run] the construction is over. *)
Lemma no_step_after_run (opts : Options) (module : Module)
    (q : PassManager) (s : Loc * PassManager) :
  ~ step opts module (L255, q) s.
Proof. intros H. inversion H. Qed.

(** Two executions from one state that both reach the call of [run]
    reach it with the same queue. *)
Lemma steps_unique (opts : Options) (module : Module)
    (s : Loc * PassManager) (q1 q2 : PassManager) :
  steps opts module s (L255, q1) -> steps opts module s (L255, q2) ->
  q1 = q2.
Proof.
  intros H1. remember (L255, q1) as final eqn:Hfinal.
  induction H1 as [s | s s' s'' Hstep Hrest IH]; intros H2.
  - subst s. inversion H2 as [| ? s' ? Hstep]; subst.
    + reflexivity.
    + exfalso. exact (no_step_after_run _ _ _ _ Hstep).
  - inversion H2 as [| ? t ? Hstep' Hrest']; subst.
    + exfalso. exact (no_step_after_run _ _ _ _ Hstep).
    + rewrite (step_deterministic _ _ _ _ _ Hstep' Hstep) in Hrest'.
      exact (IH eq_refl Hrest').
Qed.

(** One step of a construction, chosen by the state and the facts at
    hand about the options. *)
Ltac guard_holds :=
  first
    [ eassumption
    | reflexivity
    | match goal with
      | H : ?flag = _ |- context [?flag] => rewrite H; reflexivity
      end ].

Ltac construction_step :=
  eapply steps_step; [ solve [ econstructor; guard_holds ] | ];
  cbn [app].

(** The construction terminates, and the queue it hands to [run] is the
    one that [pipeline] computes. *)
Lemma builds_pipeline (opts : Options) (module : Module) :
  builds opts module (pipeline opts module).
Proof.
  unfold builds. rewrite pipeline_blocks.
  unfold layout_stage, inline_stages, boc_stages, ioc_stages, mixed_stages,
    output_stages, normalization_stages, cleanup_stages.
  destruct (select_data_layout opts module) as [dl |] eqn:Hdl;
    destruct (InlineAll opts) eqn:Hinl, (BOC opts) eqn:Hboc,
      (IOC opts) eqn:Hioc, (MixedSem opts) eqn:Hmix,
      (negb (empty (OutputFilename opts))) eqn:Hout,
      (OutputAssembly opts) eqn:Hasm;
    cbn [negb app]; repeat construction_step;
    rewrite ?Hinl; apply steps_done.
Qed.

(** C9.  Pipeline construction is deterministic.  The construction, run
    statement by statement, always reaches the call of [run]; and two
    constructions under the same configuration (the four flags, the four
    thresholds and the default layout), for the same module layout and
    the same output options, reach it with the identical ordered
    queue. *)
Theorem C9_construction_deterministic (opts1 opts2 : Options)
    (m1 m2 : Module) :
  configuration_of opts1 = configuration_of opts2 ->
  getDataLayout m1 = getDataLayout m2 ->
  OutputFilename opts1 = OutputFilename opts2 ->
  OutputAssembly opts1 = OutputAssembly opts2 ->
  (exists q, builds opts1 m1 q) /\
  (forall q1 q2, builds opts1 m1 q1 -> builds opts2 m2 q2 -> q1 = q2).
Proof.
  intros Hcfg Hm Hout Hasm. split.
  - exists (pipeline opts1 m1). apply builds_pipeline.
  - intros q1 q2 H1 H2.
    rewrite (steps_unique _ _ _ _ _ H1 (builds_pipeline opts1 m1)).
    rewrite (steps_unique _ _ _ _ _ H2 (builds_pipeline opts2 m2)).
    now apply pipeline_same_inputs.
Qed.

(** C9 on two runs with [-boc -horn-inline-all -S -o out.ll] that differ
    in the input file only. *)
Lemma C9_construction_deterministic_witness :
  let opts1 :=
    mkOptions "a.bc" "out.ll" true "" true true false false 10 20 30 40 in
  let opts2 :=
    mkOptions "b.ll" "out.ll" true "" true true false false 10 20 30 40 in
  let module := mkModule "e-p:64:64:64" in
  (configuration_of opts1 = configuration_of opts2 /\
   OutputFilename opts1 = OutputFilename opts2 /\
   OutputAssembly opts1 = OutputAssembly opts2) /\
  (exists q, builds opts1 module q) /\
  pipeline opts1 module = pipeline opts2 module.
Proof.
  cbv zeta.
  destruct (C9_construction_deterministic
    (mkOptions "a.bc" "out.ll" true "" true true false false 10 20 30 40)
    (mkOptions "b.ll" "out.ll" true "" true true false false 10 20 30 40)
    (mkModule "e-p:64:64:64") (mkModule "e-p:64:64:64")
    eq_refl eq_refl eq_refl eq_refl) as [Hex Huniq].
  split; [repeat split |]. split; [exact Hex |].
  apply Huniq; apply builds_pipeline.
Defined.

End SeaPPClaims.

(** * Properties of the AE-VAL command line *)

Section AeValFacts.

Import AeVal.

(** ** Integers and strings *)

Lemma wrap32_small (z : Z) : 0 <= z <= INT_MAX -> wrap32 z = z.
Proof.
  unfold wrap32, INT_MAX. intros Hz.
  rewrite Z.mod_small by lia. lia.
Qed.

Lemma byte_of_inj (c1 c2 : ascii) : byte_of c1 = byte_of c2 -> c1 = c2.
Proof.
  unfold byte_of. intros H. apply N2Z.inj in H.
  rewrite <- (ascii_N_embedding c1), <- (ascii_N_embedding c2).
  now rewrite H.
Qed.

(** On strings of one length, [strcmp] returns zero exactly on equal
    strings. *)
Lemma strcmp_same_length (s1 s2 : string) :
  String.length s1 = String.length s2 ->
  (strcmp s1 s2 =? 0) = String.eqb s1 s2.
Proof.
  revert s2. induction s1 as [| c1 r1 IH]; intros [| c2 r2] Hlen;
    try discriminate Hlen; cbn.
  - reflexivity.
  - destruct (Ascii.eqb_spec c1 c2) as [-> | Hne].
    + apply IH. now injection Hlen.
    + apply Z.eqb_neq. intros H. apply Hne, byte_of_inj. lia.
Qed.

Lemma substring_whole (s : string) : substring 0 (String.length s) s = s.
Proof. induction s as [| c r IH]; cbn; [| rewrite IH]; reflexivity. Qed.

Lemma substring_advance (n : nat) (s : string) :
  (n <= String.length s)%nat ->
  substring n (String.length s - n) s = advance n s.
Proof.
  revert s. induction n as [| n IH]; intros s Hn.
  - rewrite Nat.sub_0_r. cbn. apply substring_whole.
  - destruct s as [| c r]; cbn in Hn; [lia |].
    cbn. apply IH. lia.
Qed.

Lemma length_advance (n : nat) (s : string) :
  String.length (advance n s) = (String.length s - n)%nat.
Proof.
  revert s. induction n as [| n IH]; intros [| c r]; cbn; auto.
Qed.

Lemma split_at (n : nat) (s : string) :
  (n <= String.length s)%nat ->
  s = (substring 0 n s ++ advance n s)%string.
Proof.
  revert s. induction n as [| n IH]; intros [| c r] Hn; cbn in *;
    try reflexivity; try lia.
  f_equal. apply IH. lia.
Qed.

Lemma advance_append (pre suffix : string) :
  advance (String.length pre) (pre ++ suffix) = suffix.
Proof. induction pre as [| c r IH]; cbn; auto. Qed.

Lemma length_append (s1 s2 : string) :
  String.length (s1 ++ s2) = (String.length s1 + String.length s2)%nat.
Proof. induction s1 as [| c r IH]; cbn; auto. Qed.

(** [ends_in] decides that a string is some prefix followed by the
    suffix. *)
Lemma ends_in_spec (suffix s : string) :
  ends_in suffix s = true <-> exists pre, s = (pre ++ suffix)%string.
Proof.
  unfold ends_in. split.
  - intros H. apply andb_true_iff in H as [Hlen Heq].
    apply Nat.leb_le in Hlen. apply String.eqb_eq in Heq.
    exists (substring 0 (String.length s - String.length suffix) s).
    pose proof (split_at (String.length s - String.length suffix) s) as Hs.
    rewrite <- substring_advance in Hs by lia.
    replace (String.length s - (String.length s - String.length suffix))%nat
      with (String.length suffix) in Hs by lia.
    rewrite Heq in Hs. apply Hs. lia.
  - intros [pre ->]. rewrite length_append.
    apply andb_true_iff. split; [apply Nat.leb_le; lia |].
    apply String.eqb_eq.
    replace (String.length pre + String.length suffix -
             String.length suffix)%nat with (String.length pre) by lia.
    replace (String.length suffix) with
      (String.length (pre ++ suffix) - String.length pre)%nat at 1
      by (rewrite length_append; lia).
    rewrite substring_advance by (rewrite length_append; lia).
    apply advance_append.
Qed.

(** On an argument whose length fits an [int], the test of line 39 is the
    test of the description. *)
Lemma smt2_test_spec (a : string) :
  strlen a <= INT_MAX -> smt2_test a = is_smt2_name a.
Proof.
  unfold smt2_test, is_smt2_name, ends_in, strlen. intros Hlen.
  rewrite wrap32_small by lia.
  change (String.length ".smt2") with 5%nat.
  destruct (Nat.leb_spec 5 (String.length a)) as [Hge | Hlt].
  - destruct (Z.leb_spec 5 (Z.of_nat (String.length a))); [| lia].
    cbn [andb].
    replace (Z.to_nat (Z.of_nat (String.length a) - 5))
      with (String.length a - 5)%nat by lia.
    rewrite strcmp_same_length
      by (rewrite length_advance; cbn; lia).
    rewrite <- substring_advance by lia.
    replace (String.length a - (String.length a - 5))%nat with 5%nat
      by lia.
    reflexivity.
  - destruct (Z.leb_spec 5 (Z.of_nat (String.length a))); [lia |].
    reflexivity.
Qed.

(** ** The loop *)

(** One turn of the loop, as the source writes it. *)
Lemma getSmtFileName_loop_step (num argc : Z) (argv : list string)
    (i num1 : Z) :
  getSmtFileName_loop num argc argv i num1 =
  if i <? argc then
    match nth_error argv (Z.to_nat i) with
    | None => None
    | Some a =>
        if smt2_test a then
          if num1 =? num then Some (Some a)
          else getSmtFileName_loop num argc argv (i + 1) (wrap32 (num1 + 1))
        else getSmtFileName_loop num argc argv (i + 1) num1
    end
  else Some None.
Proof.
  rewrite getSmtFileName_loop_equation_1.
  destruct (Z_lt_dec i argc) as [Hlt | Hge]; cbn.
  - destruct (Z.ltb_spec i argc); [| lia].
    destruct (nth_error argv (Z.to_nat i)) as [a |]; cbn; [| reflexivity].
    destruct (smt2_test a); cbn; [| reflexivity].
    destruct (Z.eq_dec num1 num) as [-> | Hne]; cbn.
    + now rewrite Z.eqb_refl.
    + destruct (Z.eqb_spec num1 num); [contradiction | reflexivity].
  - destruct (Z.ltb_spec i argc); [lia | reflexivity].
Qed.

Lemma skipn_nth_error (A : Type) (l : list A) (n : nat) (a : A) :
  nth_error l n = Some a -> skipn n l = a :: skipn (S n) l.
Proof.
  revert l. induction n as [| n IH]; intros [| x l] H;
    try discriminate H.
  - now injection H as ->.
  - cbn [skipn]. now apply IH.
Qed.

(** Entered at position [i] with [k] positions left and [num1 - 1] names
    already passed, the loop returns what the description says of the
    remaining arguments. *)
Lemma getSmtFileName_loop_spec (num argc : Z) (argv : list string) :
  num <= INT_MAX ->
  argc <= Z.of_nat (List.length argv) ->
  (forall a, In a argv -> strlen a <= INT_MAX) ->
  forall (k : nat) (i num1 : Z),
    0 <= i -> i + Z.of_nat k = argc -> 1 <= num1 <= num ->
    getSmtFileName_loop num argc argv i num1 =
    Some (nth_error
            (filter is_smt2_name (firstn k (skipn (Z.to_nat i) argv)))
            (Z.to_nat (num - num1))).
Proof.
  intros Hnum Hargc Hlen.
  induction k as [| k IH]; intros i num1 Hi Hk Hnum1;
    rewrite getSmtFileName_loop_step.
  - destruct (Z.ltb_spec i argc); [lia |].
    cbn. now destruct (Z.to_nat (num - num1)).
  - destruct (Z.ltb_spec i argc); [| lia].
    destruct (nth_error argv (Z.to_nat i)) as [a |] eqn:Ha.
    2: { apply nth_error_None in Ha. lia. }
    rewrite (skipn_nth_error _ _ _ _ Ha). cbn [firstn filter].
    rewrite smt2_test_spec by (apply Hlen; eapply nth_error_In; eauto).
    replace (S (Z.to_nat i)) with (Z.to_nat (i + 1)) by lia.
    destruct (is_smt2_name a).
    + destruct (Z.eqb_spec num1 num) as [-> | Hne].
      * now rewrite Z.sub_diag.
      * rewrite wrap32_small by (unfold INT_MAX in *; lia).
        rewrite IH by lia.
        replace (Z.to_nat (num - num1))
          with (S (Z.to_nat (num - (num1 + 1)))) by lia.
        reflexivity.
    + apply IH; lia.
Qed.

(** C10.  For an argument vector with at least [argc] entries, each of a
    length that fits an [int], and a positive [int] [num],
    [getSmtFileName] returns without reading past [argv], and returns the
    [num]-th of the arguments at positions 1..argc-1 that are at least
    five characters long and end in [.smt2]; it returns [NULL] exactly
    when there are fewer than [num] of them. *)
Theorem C10_getSmtFileName (num argc : Z) (argv : list string) :
  0 < num <= INT_MAX ->
  argc <= Z.of_nat (List.length argv) ->
  (forall a, In a argv -> strlen a <= INT_MAX) ->
  getSmtFileName num argc argv = Some (nth_smt2_argument num argc argv) /\
  (getSmtFileName num argc argv = Some None <->
   Z.of_nat (List.length (smt2_arguments argc argv)) < num).
Proof.
  intros Hnum Hargc Hlen.
  assert (Heq : getSmtFileName num argc argv =
                Some (nth_smt2_argument num argc argv)).
  { unfold getSmtFileName, nth_smt2_argument, smt2_arguments.
    destruct (Z.le_gt_cases 1 argc) as [Hpos | Hneg].
    - rewrite (getSmtFileName_loop_spec num argc argv)
        with (k := Z.to_nat (argc - 1)); try lia; auto.
    - rewrite getSmtFileName_loop_step.
      destruct (Z.ltb_spec 1 argc); [lia |].
      replace (Z.to_nat (argc - 1)) with 0%nat by lia.
      cbn. now destruct (Z.to_nat (num - 1)). }
  split; [exact Heq |].
  rewrite Heq. unfold nth_smt2_argument. split.
  - intros H. injection H as H. apply nth_error_None in H. lia.
  - intros H. f_equal. apply nth_error_None. lia.
Qed.

(** C10 on a command line with two [.smt2] arguments, a flag and a name
    that is too short: the second name is found, a third is not. *)
Lemma C10_getSmtFileName_witness :
  let argv :=
    ["aeval"; "cruise_s_part.smt2"; "--skol"; ".smt"; "cruise_t_part.smt2"]
      %string in
  (0 < 2 <= INT_MAX /\ 5 <= Z.of_nat (List.length argv) /\
   (forall a, In a argv -> strlen a <= INT_MAX)) /\
  getSmtFileName 2 5 argv = Some (Some "cruise_t_part.smt2"%string) /\
  getSmtFileName 3 5 argv = Some None.
Proof.
  cbv zeta.
  assert (Hlen : forall a,
    In a ["aeval"; "cruise_s_part.smt2"; "--skol"; ".smt";
          "cruise_t_part.smt2"]%string -> strlen a <= INT_MAX).
  { intros a Hin. cbn in Hin.
    repeat (destruct Hin as [<- | Hin];
            [unfold strlen, INT_MAX; cbn; lia |]).
    contradiction. }
  assert (Hmax2 : 0 < 2 <= INT_MAX) by (unfold INT_MAX; lia).
  assert (Hmax3 : 0 < 3 <= INT_MAX) by (unfold INT_MAX; lia).
  assert (Hargc : 5 <= Z.of_nat (List.length
    ["aeval"; "cruise_s_part.smt2"; "--skol"; ".smt";
     "cruise_t_part.smt2"]%string)) by (cbn; lia).
  split; [split; [exact Hmax2 | split; [exact Hargc | exact Hlen]] |].
  split.
  - destruct (C10_getSmtFileName 2 5 _ Hmax2 Hargc Hlen) as [Heq _].
    exact Heq.
  - destruct (C10_getSmtFileName 3 5 _ Hmax3 Hargc Hlen) as [_ Hnull].
    apply Hnull. vm_compute. reflexivity.
Defined.

Lemma length_doubled (k : nat) (s : string) :
  Z.of_nat (String.length (doubled k s)) =
  2 ^ Z.of_nat k * Z.of_nat (String.length s).
Proof.
  revert s. induction k as [| k IH]; intros s.
  - cbn [doubled]. change (2 ^ Z.of_nat 0) with 1. lia.
  - cbn [doubled]. rewrite IH, length_append, Nat2Z.inj_succ.
    rewrite Z.pow_succ_r by lia. lia.
Qed.

(** A name of [2 ^ 31 + 5] characters that ends in [.smt2]: line 38
    stores its length in an [int], where it is negative, and the name is
    passed over. *)
Lemma long_name_skipped (stem prog : string) :
  Z.of_nat (String.length stem) = 2 ^ 31 ->
  is_smt2_name (stem ++ ".smt2") = true /\
  smt2_test (stem ++ ".smt2") = false /\
  nth_smt2_argument 1 2 [prog; (stem ++ ".smt2")%string] =
    Some (stem ++ ".smt2")%string /\
  getSmtFileName 1 2 [prog; (stem ++ ".smt2")%string] = Some None.
Proof.
  intros Hlen.
  assert (Hname : is_smt2_name (stem ++ ".smt2") = true).
  { unfold is_smt2_name. apply andb_true_iff. split.
    - apply Nat.leb_le. rewrite length_append.
      change (String.length ".smt2") with 5%nat. lia.
    - apply ends_in_spec. now exists stem. }
  assert (Htest : smt2_test (stem ++ ".smt2") = false).
  { unfold smt2_test, strlen.
    rewrite length_append, Nat2Z.inj_add, Hlen.
    change (Z.of_nat (String.length ".smt2")) with 5.
    replace (wrap32 (2 ^ 31 + 5)) with (5 - 2 ^ 31) by reflexivity.
    reflexivity. }
  split; [exact Hname | split; [exact Htest | split]].
  - unfold nth_smt2_argument, smt2_arguments.
    change (Z.to_nat (2 - 1)) with 1%nat.
    change (Z.to_nat (1 - 1)) with 0%nat.
    cbn [skipn firstn filter]. rewrite Hname. reflexivity.
  - unfold getSmtFileName.
    rewrite getSmtFileName_loop_step.
    change (1 <? 2) with true. change (Z.to_nat 1) with 1%nat.
    cbn [nth_error]. rewrite Htest.
    rewrite getSmtFileName_loop_step. reflexivity.
Qed.

(** C10, as claimed, fails: on a command line whose only argument is a
    name of [2 ^ 31 + 5] characters ending in [.smt2], the first such
    argument exists and [getSmtFileName (1, ..)] returns [NULL]. *)
Lemma C10_long_name_skipped :
  let name := (doubled 31 "a" ++ ".smt2")%string in
  let argv := ["aeval"%string; name] in
  strlen name = 2 ^ 31 + 5 /\
  is_smt2_name name = true /\
  nth_smt2_argument 1 2 argv = Some name /\
  getSmtFileName 1 2 argv = Some None.
Proof.
  cbv zeta.
  assert (Hlen : Z.of_nat (String.length (doubled 31 "a")) = 2 ^ 31).
  { rewrite length_doubled. reflexivity. }
  destruct (long_name_skipped (doubled 31 "a") "aeval" Hlen)
    as (Hname & _ & Hnth & Hget).
  split; [| split; [exact Hname | split; [exact Hnth | exact Hget]]].
  unfold strlen. rewrite length_append, Nat2Z.inj_add, Hlen. reflexivity.
Qed.

End AeValFacts.

(** * Further properties of SeaPP *)

Section GetFileName.

Import SeaPP.

Lemma free_of_cons (chars : string) (c : ascii) (r : string) :
  free_of chars (String c r) = negb (occurs_in c chars) && free_of chars r.
Proof. reflexivity. Qed.

(** [npos] is returned exactly when no character qualifies. *)
Lemma find_last_of_None (s chars : string) :
  find_last_of s chars = None <-> free_of chars s = true.
Proof.
  induction s as [| c r IH]; cbn [find_last_of].
  - split; reflexivity.
  - rewrite free_of_cons, andb_true_iff, negb_true_iff, <- IH.
    destruct (find_last_of r chars) as [i |].
    + split; [discriminate | intros [_ H]; discriminate H].
    + destruct (occurs_in c chars); split; try discriminate; auto.
      intros [H _]. discriminate H.
Qed.

(** An index returned splits the string at the last qualifying
    character. *)
Lemma find_last_of_Some (s chars : string) (i : nat) :
  find_last_of s chars = Some i ->
  exists c rest,
    s = (substr0 i s ++ String c rest)%string /\
    occurs_in c chars = true /\ free_of chars rest = true.
Proof.
  unfold substr0. revert i.
  induction s as [| c r IH]; intros i H; cbn [find_last_of] in H.
  - discriminate H.
  - destruct (find_last_of r chars) as [j |] eqn:Hr.
    + injection H as <-.
      destruct (IH j eq_refl) as (c' & rest & Hs & Hc & Hfree).
      exists c', rest. split; [| auto].
      cbn. f_equal. exact Hs.
    + destruct (occurs_in c chars) eqn:Hc; [| discriminate H].
      injection H as <-. exists c, r. split; [reflexivity |].
      split; [exact Hc | now apply find_last_of_None].
Qed.

Lemma find_last_of_app (pre rest chars : string) (c : ascii) :
  occurs_in c chars = true -> free_of chars rest = true ->
  find_last_of (pre ++ String c rest) chars = Some (String.length pre).
Proof.
  intros Hc Hfree. apply find_last_of_None in Hfree.
  induction pre as [| x pre IH]; cbn.
  - now rewrite Hfree, Hc.
  - now rewrite IH.
Qed.

Lemma substr0_prefix (pre rest : string) :
  substr0 (String.length pre) (pre ++ rest) = pre.
Proof.
  unfold substr0. induction pre as [| x pre IH]; cbn.
  - now destruct rest.
  - now rewrite IH.
Qed.

Lemma occurs_in_dot (c : ascii) : occurs_in c "." = true <-> c = "."%char.
Proof.
  unfold occurs_in. cbn. rewrite orb_false_r. apply Ascii.eqb_eq.
Qed.

(** [getFileName] strips the last extension, and only that one: when
    [ext] holds no dot, the name [base.ext] is cut back to [base], whatever
    [base] is (it may hold dots, or be empty). *)
Theorem getFileName_strips_extension (base ext : string) :
  free_of "." ext = true ->
  getFileName (base ++ String "." ext) = base.
Proof.
  intros Hext. unfold getFileName.
  rewrite (find_last_of_app base ext "." "."%char) by auto.
  apply substr0_prefix.
Qed.

(** On a name of two extensions only the second one goes. *)
Lemma getFileName_strips_extension_witness :
  free_of "." "bc" = true /\
  getFileName ("dir/prog.opt" ++ String "." "bc") = "dir/prog.opt"%string.
Proof.
  split; [reflexivity |].
  apply (getFileName_strips_extension "dir/prog.opt" "bc"). reflexivity.
Defined.

(** [getFileName] returns its argument unchanged exactly when the
    argument holds no dot. *)
Theorem getFileName_unchanged_iff (str : string) :
  getFileName str = str <-> free_of "." str = true.
Proof.
  unfold getFileName. split.
  - intros H. destruct (find_last_of str ".") as [i |] eqn:Hf.
    + destruct (find_last_of_Some _ _ _ Hf) as (c & rest & Hs & _).
      rewrite H in Hs. apply (f_equal String.length) in Hs.
      rewrite length_append in Hs. cbn in Hs. lia.
    + now apply find_last_of_None.
  - intros H. apply find_last_of_None in H. now rewrite H.
Qed.

(** The result of [getFileName] is a prefix of its argument, and what is
    cut off is either nothing or a dot followed by characters that are
    not dots. *)
Theorem getFileName_cuts_suffix (str : string) :
  exists rest,
    str = (getFileName str ++ rest)%string /\
    (rest = EmptyString \/
     exists ext, rest = String "." ext /\ free_of "." ext = true).
Proof.
  unfold getFileName.
  destruct (find_last_of str ".") as [i |] eqn:Hf.
  - destruct (find_last_of_Some _ _ _ Hf) as (c & ext & Hs & Hc & Hfree).
    apply occurs_in_dot in Hc. subst c.
    exists (String "." ext). split; [exact Hs |].
    right. now exists ext.
  - exists EmptyString. split; [| now left].
    clear Hf. induction str as [| c r IH]; cbn; [| rewrite <- IH];
      reflexivity.
Qed.

End GetFileName.

Section PipelineShape.

Import SeaPP.

(** ** The layout stage *)

(** Everything after the layout block, none of it a [DataLayout]. *)
Lemma pipeline_after_layout (opts : Options) (module : Module) :
  exists rest,
    pipeline opts module = layout_stage opts module ++ rest /\
    count is_data_layout rest = 0%nat.
Proof.
  eexists. split; [apply pipeline_blocks |].
  rewrite !count_app.
  unfold inline_stages, boc_stages, ioc_stages, mixed_stages, output_stages.
  destruct (InlineAll opts), (BOC opts), (IOC opts), (MixedSem opts),
    (negb (empty (OutputFilename opts))), (OutputAssembly opts);
    reflexivity.
Qed.

(** The queue holds a [DataLayout] exactly when the module declares a
    layout or [-default-data-layout] is given; there is then one only, it
    is the first stage of the queue, and it is built from the module's
    string. *)
Theorem layout_stage_first (opts : Options) (module : Module) :
  count is_data_layout (pipeline opts module) =
    (if empty (getDataLayout module) && empty (DefaultDataLayout opts)
     then 0 else 1)%nat /\
  forall l1 p l2,
    pipeline opts module = l1 ++ p :: l2 -> is_data_layout p = true ->
    l1 = [] /\ p = DataLayout (getDataLayout module).
Proof.
  destruct (pipeline_after_layout opts module) as (rest & Heq & Hrest).
  split.
  - rewrite Heq, count_app, Hrest.
    unfold layout_stage, select_data_layout.
    destruct (empty (getDataLayout module)),
      (empty (DefaultDataLayout opts)); reflexivity.
  - intros l1 p l2 Hsplit Hp. rewrite Heq in Hsplit.
    assert (Hnot : ~ In p rest)
      by (apply (count_zero_not_in is_data_layout); assumption).
    destruct (layout_stage_cases opts module) as [Hl | Hl];
      rewrite Hl in Hsplit; cbn [app] in Hsplit.
    + exfalso. apply Hnot. rewrite Hsplit. apply in_elt.
    + destruct l1 as [| x l1]; cbn [app] in Hsplit.
      * injection Hsplit as Hp' _. auto.
      * injection Hsplit as _ Hr. exfalso. apply Hnot. rewrite Hr.
        apply in_elt.
Qed.

Lemma layout_stage_first_witness :
  let opts := default_options "prog.bc" in
  let module := mkModule "e-p:64:64:64" in
  let l2 := tl (pipeline opts module) in
  (pipeline opts module = [] ++ DataLayout "e-p:64:64:64" :: l2 /\
   is_data_layout (DataLayout "e-p:64:64:64") = true) /\
  count is_data_layout (pipeline opts module) = 1%nat.
Proof.
  cbv zeta. split; [split; reflexivity |].
  apply (layout_stage_first (default_options "prog.bc")
           (mkModule "e-p:64:64:64")).
Defined.

(** ** One flag at a time *)

(** [-ioc] inserts two stages at one place of the queue, the lowering of
    constant expressions and the overflow check, and changes nothing
    else. *)
Theorem toggle_IOC (opts : Options) (module : Module) :
  exists l1 l2,
    pipeline (with_IOC false opts) module = l1 ++ l2 /\
    pipeline (with_IOC true opts) module =
    l1 ++ [LowerCstExprPass; IntegerOverflowCheck (InlineAll opts)] ++ l2.
Proof.
  exists (layout_stage opts module ++ normalization_stages opts ++
          inline_stages opts ++ cleanup_stages ++ boc_stages opts),
    ([RemoveUnreachableBlocksPass] ++ mixed_stages opts ++
     [VerifierPass] ++ output_stages opts).
  rewrite !pipeline_blocks, <- !app_assoc. split; reflexivity.
Qed.

(** [-boc] inserts one run of consecutive stages (lowering, the
    memory-access analysis, the shadow parameters unless everything is
    inlined, the bounds check and a nondet initialisation) and changes
    nothing else. *)
Theorem toggle_BOC (opts : Options) (module : Module) :
  exists l1 l2,
    pipeline (with_BOC false opts) module = l1 ++ l2 /\
    pipeline (with_BOC true opts) module =
    l1 ++ [LowerCstExprPass; CanAccessMemory] ++
    (if InlineAll opts then [] else [ShadowBufferBoundsCheckFuncPars]) ++
    [BufferBoundsCheck (InlineAll opts); NondetInitPass] ++ l2.
Proof.
  exists (layout_stage opts module ++ normalization_stages opts ++
          inline_stages opts ++ cleanup_stages),
    (ioc_stages opts ++ [RemoveUnreachableBlocksPass] ++
     mixed_stages opts ++ [VerifierPass] ++ output_stages opts).
  rewrite !pipeline_blocks, <- !app_assoc. split; [reflexivity |].
  unfold boc_stages. cbn [BOC with_BOC InlineAll].
  destruct (InlineAll opts); reflexivity.
Qed.

(** [-horn-mixed-sem] inserts the mixed-semantics stage and a removal of
    unreachable blocks right before the verifier, and changes nothing
    else. *)
Theorem toggle_MixedSem (opts : Options) (module : Module) :
  exists l1 l2,
    pipeline (with_MixedSem false opts) module = l1 ++ VerifierPass :: l2 /\
    pipeline (with_MixedSem true opts) module =
    l1 ++ [MixedSemantics; RemoveUnreachableBlocksPass] ++
    VerifierPass :: l2.
Proof.
  exists (layout_stage opts module ++ normalization_stages opts ++
          inline_stages opts ++ cleanup_stages ++ boc_stages opts ++
          ioc_stages opts ++ [RemoveUnreachableBlocksPass]),
    (output_stages opts).
  rewrite !pipeline_blocks, <- !app_assoc. split; reflexivity.
Qed.

(** Without instrumentation, [-horn-inline-all] inserts three consecutive
    stages (marking, the inliner and a global dead-code elimination) and
    changes nothing else. *)
Theorem toggle_InlineAll (opts : Options) (module : Module) :
  BOC opts = false -> IOC opts = false ->
  exists l1 l2,
    pipeline (with_InlineAll false opts) module = l1 ++ l2 /\
    pipeline (with_InlineAll true opts) module =
    l1 ++ [MarkInternalInlinePass; AlwaysInlinerPass; GlobalDCEPass] ++ l2.
Proof.
  intros Hboc Hioc.
  exists (layout_stage opts module ++ normalization_stages opts),
    (cleanup_stages ++ [RemoveUnreachableBlocksPass] ++
     mixed_stages opts ++ [VerifierPass] ++ output_stages opts).
  rewrite !pipeline_blocks, <- !app_assoc.
  unfold boc_stages, ioc_stages. cbn [BOC IOC with_InlineAll].
  rewrite Hboc, Hioc. split; reflexivity.
Qed.

Lemma toggle_InlineAll_witness :
  let opts := default_options "prog.bc" in
  (BOC opts = false /\ IOC opts = false) /\
  exists l1 l2,
    pipeline (with_InlineAll false opts) (mkModule "") = l1 ++ l2 /\
    pipeline (with_InlineAll true opts) (mkModule "") =
    l1 ++ [MarkInternalInlinePass; AlwaysInlinerPass; GlobalDCEPass] ++ l2.
Proof.
  cbv zeta. split; [split; reflexivity |].
  apply (toggle_InlineAll (default_options "prog.bc") (mkModule ""));
    reflexivity.
Defined.

End PipelineShape.

Section Instrumentation.

Import SeaPP.

(** What [each_preceded_by] says of a sequence. *)
Lemma each_preceded_by_spec (f g : Pass -> bool) (l : list Pass) :
  forall seen, each_preceded_by seen f g l = true ->
  forall l1 p l2, l = l1 ++ p :: l2 -> f p = true ->
  seen = true \/ (1 <= count g l1)%nat.
Proof.
  induction l as [| x l IH]; intros seen H l1 p l2 Hl Hf.
  - destruct l1; discriminate Hl.
  - cbn in H. apply andb_true_iff in H as [Hhd Htl].
    destruct l1 as [| y l1]; cbn [app] in Hl; injection Hl as -> ->.
    + rewrite Hf in Hhd. now left.
    + destruct (IH _ Htl l1 p l2 eq_refl Hf) as [Hs | Hc].
      * apply orb_true_iff in Hs as [Hs | Hs]; [now left | right].
        rewrite count_cons, Hs. lia.
      * right. rewrite count_cons. lia.
Qed.

(** Whatever the options, a bounds-check stage or an overflow-check
    stage of the queue has a constant-expression lowering somewhere
    before it. *)
Theorem lowering_precedes_checks (opts : Options) (module : Module)
    (l1 l2 : list Pass) (p : Pass) :
  pipeline opts module = l1 ++ p :: l2 ->
  is_bounds_check p || is_overflow_check p = true ->
  (1 <= count is_cst_expr_lowering l1)%nat.
Proof.
  intros Hsplit Hp.
  assert (H : each_preceded_by false
                (fun q => is_bounds_check q || is_overflow_check q)
                is_cst_expr_lowering (pipeline opts module) = true).
  { rewrite pipeline_blocks.
    unfold inline_stages, boc_stages, ioc_stages, mixed_stages,
      output_stages.
    destruct (layout_stage_cases opts module) as [-> | ->];
      destruct (InlineAll opts), (BOC opts), (IOC opts), (MixedSem opts),
        (negb (empty (OutputFilename opts))), (OutputAssembly opts);
      reflexivity. }
  destruct (each_preceded_by_spec _ _ _ _ H l1 p l2 Hsplit Hp) as [Hs | Hc];
    [discriminate Hs | exact Hc].
Qed.

Lemma lowering_precedes_checks_witness :
  let opts :=
    mkOptions "prog.bc" "" false "" false false true false
      INT_MAX INT_MAX INT_MAX (-1) in
  let l1 := firstn 21 (pipeline opts (mkModule "")) in
  let l2 := skipn 22 (pipeline opts (mkModule "")) in
  (pipeline opts (mkModule "") = l1 ++ IntegerOverflowCheck false :: l2 /\
   is_bounds_check (IntegerOverflowCheck false) ||
   is_overflow_check (IntegerOverflowCheck false) = true) /\
  (1 <= count is_cst_expr_lowering l1)%nat.
Proof.
  cbv zeta. split; [split; reflexivity |].
  apply (lowering_precedes_checks
           (mkOptions "prog.bc" "" false "" false false true false
              INT_MAX INT_MAX INT_MAX (-1)) (mkModule "")
           _ (skipn 22 (pipeline
                (mkOptions "prog.bc" "" false "" false false true false
                   INT_MAX INT_MAX INT_MAX (-1)) (mkModule "")))
           (IntegerOverflowCheck false)); reflexivity.
Defined.

(** The queue holds one bounds-check stage under [-boc] and none
    without, one overflow-check stage under [-ioc] and none without, and
    each of them is built with the value of [-horn-inline-all]. *)
Theorem checks_on_request (opts : Options) (module : Module) :
  count is_bounds_check (pipeline opts module) =
    (if BOC opts then 1 else 0)%nat /\
  count is_overflow_check (pipeline opts module) =
    (if IOC opts then 1 else 0)%nat /\
  (forall b, In (BufferBoundsCheck b) (pipeline opts module) ->
             b = InlineAll opts) /\
  (forall b, In (IntegerOverflowCheck b) (pipeline opts module) ->
             b = InlineAll opts).
Proof.
  assert (H : forallb (carries_flag (InlineAll opts))
                (pipeline opts module) = true).
  { rewrite pipeline_blocks.
    unfold inline_stages, boc_stages, ioc_stages, mixed_stages,
      output_stages.
    destruct (layout_stage_cases opts module) as [-> | ->];
      destruct (InlineAll opts), (BOC opts), (IOC opts), (MixedSem opts),
        (negb (empty (OutputFilename opts))), (OutputAssembly opts);
      reflexivity. }
  rewrite forallb_forall in H.
  split; [| split; [| split]].
  - count_stages opts.
  - count_stages opts.
  - intros b Hin. apply H in Hin. cbn in Hin. now apply Bool.eqb_prop.
  - intros b Hin. apply H in Hin. cbn in Hin. now apply Bool.eqb_prop.
Qed.

End Instrumentation.

Section MainOutcomes.

Import SeaPP.

Lemma report_events (env : Env) (msg : string) (e : Event) :
  In e (report env msg) ->
  e = ChangeColorRed \/ e = ResetColor \/ exists m, e = ErrsWrite m.
Proof.
  unfold report. destruct (errs_has_colors env); cbn; intros H;
    repeat (destruct H as [<- | H]; eauto); contradiction.
Qed.

(** The four ways through [main]. *)
Lemma main_cases (env : Env) (opts : Options) :
  let opened :=
    if empty (OutputFilename opts) then []
    else [OpenOutput (OutputFilename opts)] in
  let kept :=
    if empty (OutputFilename opts) then []
    else [Keep (OutputFilename opts)] in
  (parse_fails env opts = true /\
   exists msg, main env opts = (Exit 3, report env msg)) \/
  (parse_fails env opts = false /\ output_error env opts = true /\
   exists msg, main env opts = (Exit 3, opened ++ report env msg)) \/
  (exists m,
     ParseIRFile env (InputFilename opts) = inl m /\
     output_error env opts = false /\
     ((full_success env opts = true /\
       main env opts =
       (Exit 0, opened ++ [Run (pipeline opts m) m] ++ kept)) \/
      (full_success env opts = false /\
       main env opts = (Aborted, opened ++ [Run (pipeline opts m) m])))).
Proof.
  unfold main, parse_fails, output_error, full_success.
  destruct (ParseIRFile env (InputFilename opts)) as [m | err];
    [| left; eauto].
  right.
  destruct (empty (OutputFilename opts)); cbn [negb andb orb].
  - right. exists m.
    destruct (run_completes env (pipeline opts m) m); auto.
  - destruct (empty (tool_output_file env (OutputFilename opts)));
      cbn [negb andb orb].
    + right. exists m.
      destruct (run_completes env (pipeline opts m) m); auto.
    + left. eauto.
Qed.

(** [main] returns 3 exactly when the module cannot be read or the output
    file cannot be opened, 0 exactly on full success, and otherwise the
    process dies inside the pass manager; in the runs that return 3 no
    pass is run and no output file is kept. *)
Theorem main_outcomes (env : Env) (opts : Options) :
  (fst (main env opts) = Exit 3 <->
   parse_fails env opts || output_error env opts = true) /\
  (fst (main env opts) = Exit 0 <-> full_success env opts = true) /\
  (fst (main env opts) = Aborted <->
   parse_fails env opts || output_error env opts = false /\
   full_success env opts = false) /\
  (fst (main env opts) = Exit 3 ->
   forall e, In e (snd (main env opts)) ->
   is_run e = false /\ (forall path, e <> Keep path)).
Proof.
  assert (Hfs : parse_fails env opts || output_error env opts = true ->
                full_success env opts = false).
  { unfold parse_fails, output_error, full_success.
    destruct (ParseIRFile env (InputFilename opts)); [| reflexivity].
    destruct (empty (OutputFilename opts)); [discriminate |].
    destruct (empty (tool_output_file env (OutputFilename opts)));
      [discriminate | reflexivity]. }
  destruct (main_cases env opts)
    as [(Hp & msg & ->)
       | [(Hp & Ho & msg & ->)
         | (m & Hm & Ho & [(Hf & ->) | (Hf & ->)])]]; cbn [fst snd].
  - rewrite Hp in *. cbn [orb] in *. rewrite (Hfs eq_refl).
    repeat split; try discriminate; auto; try (intros []; discriminate).
    + apply report_events in H0 as [-> | [-> | [x ->]]]; reflexivity.
    + apply report_events in H0 as [-> | [-> | [x ->]]]; discriminate.
  - rewrite Hp, Ho in *. cbn [orb] in *. rewrite (Hfs eq_refl).
    repeat split; try discriminate; auto; try (intros []; discriminate).
    + apply in_app_or in H0 as [H0 | H0].
      * destruct (empty (OutputFilename opts)); [contradiction |].
        destruct H0 as [<- | []]. reflexivity.
      * apply report_events in H0 as [-> | [-> | [x ->]]]; reflexivity.
    + apply in_app_or in H0 as [H0 | H0].
      * destruct (empty (OutputFilename opts)); [contradiction |].
        destruct H0 as [<- | []]. discriminate.
      * apply report_events in H0 as [-> | [-> | [x ->]]]; discriminate.
  - assert (Hp : parse_fails env opts = false)
      by (unfold parse_fails; now rewrite Hm).
    rewrite Hp, Ho, Hf. cbn [orb].
    repeat split; try discriminate; auto; intros []; discriminate.
  - assert (Hp : parse_fails env opts = false)
      by (unfold parse_fails; now rewrite Hm).
    rewrite Hp, Ho, Hf. cbn [orb].
    repeat split; try discriminate; auto.
Qed.

(** The events of a run, in the order of [main]. *)
Ltac split_events H :=
  repeat (apply in_app_or in H as [H | H]);
  repeat match type of H with
  | In _ (if ?b then _ else _) => destruct b
  | In _ (report _ _) =>
      apply report_events in H as [H | [H | [? H]]]
  | In _ (_ :: _) => destruct H as [H | H]
  | In _ [] => contradiction H
  end.

(** The output file is kept exactly in the runs that return 0 with [-o],
    and the file kept is the one of [-o]. *)
Theorem output_kept_iff (env : Env) (opts : Options) (path : string) :
  In (Keep path) (snd (main env opts)) <->
  fst (main env opts) = Exit 0 /\ empty (OutputFilename opts) = false /\
  path = OutputFilename opts.
Proof.
  destruct (main_cases env opts)
    as [(Hp & msg & ->)
       | [(Hp & Ho & msg & ->)
         | (m & Hm & Ho & [(Hf & ->) | (Hf & ->)])]]; cbn [fst snd].
  - split; [| intros (H & _); discriminate H].
    intros H. split_events H; discriminate.
  - split; [| intros (H & _); discriminate H].
    intros H. split_events H; discriminate.
  - split.
    + intros H. split_events H; try discriminate.
      injection H as <-. auto.
    + intros (_ & He & ->). rewrite He.
      apply in_or_app. right. apply in_or_app. right. now left.
  - split; [| intros (H & _); discriminate H].
    intros H. split_events H; discriminate.
Qed.

(** A sequence with one run in it splits around that run in one way. *)
Lemma split_at_run (l1 l2 pre post : list Event) (r r' : Event) :
  (forall e, In e l1 -> is_run e = false) ->
  (forall e, In e l2 -> is_run e = false) ->
  is_run r' = true ->
  l1 ++ r :: l2 = pre ++ r' :: post ->
  pre = l1 /\ r' = r /\ post = l2.
Proof.
  intros H1 H2 Hr. revert pre.
  induction l1 as [| x l1 IH]; intros [| e pre] Heq; cbn [app] in Heq.
  - injection Heq as -> ->. auto.
  - injection Heq as -> ->. exfalso.
    assert (Hin : In r' (pre ++ r' :: post)) by apply in_elt.
    apply H2 in Hin. congruence.
  - injection Heq as -> _. exfalso.
    assert (Hx : is_run r' = false) by (apply H1; now left).
    congruence.
  - injection Heq as -> Heq.
    destruct (IH (fun e He => H1 e (or_intror He)) pre Heq)
      as (-> & -> & ->).
    auto.
Qed.

(** What the pass manager runs is the queue built from the options and
    the module that was read, on that module, and it runs at most once.
    The run comes after the opening of the output file and before its
    keeping: the events before the run are the opening of the file of
    [-o], exactly when [-o] is given, and it opened without error; the
    only event that can follow the run is the keeping of that file. *)
Theorem passes_run_on_parsed_module (env : Env) (opts : Options) :
  (List.length (filter is_run (snd (main env opts))) <= 1)%nat /\
  forall pre passes module post,
    snd (main env opts) = pre ++ Run passes module :: post ->
    ParseIRFile env (InputFilename opts) = inl module /\
    passes = pipeline opts module /\
    output_error env opts = false /\
    pre = (if empty (OutputFilename opts) then []
           else [OpenOutput (OutputFilename opts)]) /\
    (forall e, In e post -> e = Keep (OutputFilename opts)).
Proof.
  assert (Hopened : forall e,
    In e (if empty (OutputFilename opts) then []
          else [OpenOutput (OutputFilename opts)]) -> is_run e = false).
  { intros e He. destruct (empty (OutputFilename opts));
      [contradiction | destruct He as [<- | []]; reflexivity]. }
  assert (Hkept : forall e,
    In e (if empty (OutputFilename opts) then []
          else [Keep (OutputFilename opts)]) ->
    is_run e = false /\ e = Keep (OutputFilename opts)).
  { intros e He. destruct (empty (OutputFilename opts));
      [contradiction | destruct He as [<- | []]; auto]. }
  destruct (main_cases env opts)
    as [(Hp & msg & ->)
       | [(Hp & Ho & msg & ->)
         | (m & Hm & Ho & [(Hf & ->) | (Hf & ->)])]]; cbn [fst snd].
  - split.
    + unfold report. destruct (errs_has_colors env); cbn; lia.
    + intros pre passes module post Heq. exfalso.
      assert (H : In (Run passes module) (report env msg))
        by (rewrite Heq; apply in_elt).
      split_events H; discriminate.
  - split.
    + unfold report.
      destruct (empty (OutputFilename opts)), (errs_has_colors env);
        cbn; lia.
    + intros pre passes module post Heq. exfalso.
      assert (H : In (Run passes module)
                    ((if empty (OutputFilename opts) then []
                      else [OpenOutput (OutputFilename opts)]) ++
                     report env msg))
        by (rewrite Heq; apply in_elt).
      split_events H; discriminate.
  - split.
    + destruct (empty (OutputFilename opts)); cbn; lia.
    + intros pre passes module post Heq. cbn [app] in Heq.
      apply split_at_run in Heq as (-> & Hrun & ->);
        [| exact Hopened | intros e He; now apply Hkept | reflexivity].
      injection Hrun as -> ->.
      repeat split; auto. intros e He. now apply Hkept.
  - split.
    + destruct (empty (OutputFilename opts)); cbn; lia.
    + intros pre passes module post Heq.
      apply split_at_run in Heq as (-> & Hrun & ->);
        [| exact Hopened | intros e [] | reflexivity].
      injection Hrun as -> ->.
      repeat split; auto. intros e [].
Qed.

End MainOutcomes.

(** * Further properties of the AE-VAL command line *)

Section AeValOptions.

Import AeVal.

Lemma byte_of_zero_iff (c : ascii) : byte_of c = 0 <-> c = zero.
Proof.
  split; [| intros ->; reflexivity].
  intros H. apply byte_of_inj. rewrite H. reflexivity.
Qed.

Lemma nul_free_cons (c : ascii) (r : string) :
  nul_free (String c r) = negb (Ascii.eqb c zero) && nul_free r.
Proof. reflexivity. Qed.

(** On C strings, [strcmp] returns zero exactly on equal strings. *)
Lemma strcmp_zero_iff (s1 s2 : string) :
  nul_free s1 = true -> nul_free s2 = true ->
  (strcmp s1 s2 = 0 <-> s1 = s2).
Proof.
  revert s2. induction s1 as [| c1 r1 IH]; intros [| c2 r2] H1 H2;
    rewrite ?nul_free_cons in *; cbn [strcmp].
  - tauto.
  - apply andb_true_iff in H2 as [Hc _]. apply negb_true_iff in Hc.
    apply Ascii.eqb_neq in Hc. rewrite <- byte_of_zero_iff in Hc.
    split; [lia | discriminate].
  - apply andb_true_iff in H1 as [Hc _]. apply negb_true_iff in Hc.
    apply Ascii.eqb_neq in Hc. rewrite <- byte_of_zero_iff in Hc.
    split; [lia | discriminate].
  - apply andb_true_iff in H1 as [_ H1].
    apply andb_true_iff in H2 as [_ H2].
    destruct (Ascii.eqb_spec c1 c2) as [-> | Hne].
    + rewrite (IH r2 H1 H2). split; [now intros -> | now intros [= ->]].
    + split.
      * intros H. exfalso. apply Hne, byte_of_inj. lia.
      * intros [= Hc _]. contradiction.
Qed.

(** One turn of the loop of [getBoolValue], as the source writes it. *)
Lemma getBoolValue_loop_step (opt : string) (defValue : bool) (argc : Z)
    (argv : list string) (i : Z) :
  getBoolValue_loop opt defValue argc argv i =
  if i <? argc then
    match nth_error argv (Z.to_nat i) with
    | None => None
    | Some a =>
        if strcmp a opt =? 0 then Some true
        else getBoolValue_loop opt defValue argc argv (i + 1)
    end
  else Some defValue.
Proof.
  rewrite getBoolValue_loop_equation_1.
  destruct (Z_lt_dec i argc) as [Hlt | Hge]; cbn.
  - destruct (Z.ltb_spec i argc); [| lia].
    destruct (nth_error argv (Z.to_nat i)) as [a |]; cbn; [| reflexivity].
    destruct (Z.eq_dec (strcmp a opt) 0) as [He | Hne]; cbn.
    + now rewrite He.
    + destruct (Z.eqb_spec (strcmp a opt) 0); [contradiction | reflexivity].
  - destruct (Z.ltb_spec i argc); [lia | reflexivity].
Qed.

Lemma getBoolValue_loop_spec (opt : string) (defValue : bool) (argc : Z)
    (argv : list string) :
  argc <= Z.of_nat (List.length argv) ->
  nul_free opt = true -> forallb nul_free argv = true ->
  forall (k : nat) (i : Z),
    0 <= i -> i + Z.of_nat k = argc ->
    getBoolValue_loop opt defValue argc argv i =
    Some (existsb (String.eqb opt) (firstn k (skipn (Z.to_nat i) argv))
          || defValue).
Proof.
  intros Hargc Hopt Hargv. rewrite forallb_forall in Hargv.
  induction k as [| k IH]; intros i Hi Hk;
    rewrite getBoolValue_loop_step.
  - destruct (Z.ltb_spec i argc); [lia | reflexivity].
  - destruct (Z.ltb_spec i argc); [| lia].
    destruct (nth_error argv (Z.to_nat i)) as [a |] eqn:Ha.
    2: { apply nth_error_None in Ha. lia. }
    rewrite (skipn_nth_error _ _ _ _ Ha). cbn [firstn existsb].
    assert (Hz : strcmp a opt = 0 <-> a = opt)
      by (apply strcmp_zero_iff; [apply Hargv; eapply nth_error_In |];
          eauto).
    destruct (Z.eqb_spec (strcmp a opt) 0) as [He | Hne].
    + apply Hz in He. subst a. now rewrite String.eqb_refl.
    + destruct (String.eqb_spec opt a) as [-> | _];
        [exfalso; apply Hne, Hz; reflexivity |].
      cbn [orb]. replace (S (Z.to_nat i)) with (Z.to_nat (i + 1)) by lia.
      apply IH; lia.
Qed.

Lemma getBoolValue_eq (opt : string) (defValue : bool) (argc : Z)
    (argv : list string) :
  argc <= Z.of_nat (List.length argv) ->
  nul_free opt = true -> forallb nul_free argv = true ->
  getBoolValue opt defValue argc argv =
  Some (given opt argc argv || defValue).
Proof.
  intros Hargc Hopt Hargv. unfold getBoolValue, given, arguments.
  destruct (Z.le_gt_cases 1 argc) as [Hpos | Hneg].
  - now apply getBoolValue_loop_spec; try lia.
  - rewrite getBoolValue_loop_step.
    destruct (Z.ltb_spec 1 argc); [lia |].
    replace (Z.to_nat (argc - 1)) with 0%nat by lia. reflexivity.
Qed.

(** [getBoolValue] returns without reading past [argv], and returns
    [true] exactly when the default is [true] or the option is one of the
    arguments at positions 1..argc-1; the program name at position 0 is
    not looked at. *)
Theorem getBoolValue_true_iff (opt : string) (defValue : bool) (argc : Z)
    (argv : list string) :
  argc <= Z.of_nat (List.length argv) ->
  nul_free opt = true -> forallb nul_free argv = true ->
  (exists b, getBoolValue opt defValue argc argv = Some b) /\
  (getBoolValue opt defValue argc argv = Some true <->
   defValue = true \/ In opt (arguments argc argv)).
Proof.
  intros Hargc Hopt Hargv.
  rewrite (getBoolValue_eq opt defValue argc argv Hargc Hopt Hargv).
  split; [eauto |]. unfold given. split.
  - intros [= H]. apply orb_true_iff in H as [H | H]; [right | now left].
    apply existsb_exists in H as (a & Hin & Ha).
    apply String.eqb_eq in Ha. now subst a.
  - intros [-> | Hin]; f_equal; [apply orb_true_r |].
    apply orb_true_iff. left. apply existsb_exists.
    exists opt. split; [exact Hin | apply String.eqb_refl].
Qed.

(** A command line whose program name is itself [--skol]: the option is
    not given; with [--skol] among the arguments it is. *)
Lemma getBoolValue_true_iff_witness :
  (3 <= Z.of_nat (List.length ["--skol"; "s.smt2"; "t.smt2"]%string) /\
   nul_free "--skol" = true /\
   forallb nul_free ["--skol"; "s.smt2"; "t.smt2"]%string = true) /\
  getBoolValue "--skol" false 3 ["--skol"; "s.smt2"; "t.smt2"]%string
    <> Some true /\
  getBoolValue "--skol" false 3 ["aeval"; "s.smt2"; "--skol"]%string
    = Some true.
Proof.
  split; [split; [cbn; lia | split; reflexivity] |]. split.
  - assert (Hargc : 3 <= Z.of_nat
      (List.length ["--skol"; "s.smt2"; "t.smt2"]%string)) by (cbn; lia).
    destruct (getBoolValue_true_iff "--skol" false 3
                ["--skol"; "s.smt2"; "t.smt2"]%string
                Hargc eq_refl eq_refl) as [_ Hiff].
    intros H. apply Hiff in H. destruct H as [H | H]; [discriminate H |].
    cbn in H. repeat (destruct H as [H | H]; [discriminate H |]).
    exact H.
  - assert (Hargc : 3 <= Z.of_nat
      (List.length ["aeval"; "s.smt2"; "--skol"]%string)) by (cbn; lia).
    destruct (getBoolValue_true_iff "--skol" false 3
                ["aeval"; "s.smt2"; "--skol"]%string
                Hargc eq_refl eq_refl) as [_ Hiff].
    apply Hiff. right. vm_compute. auto.
Defined.

End AeValOptions.

Section AeValNames.

Import AeVal.

(** With [num] below 1 the counter never meets it. *)
Lemma getSmtFileName_loop_nonpositive (num argc : Z) (argv : list string) :
  num <= 0 -> argc <= Z.of_nat (List.length argv) -> argc <= INT_MAX ->
  forall (k : nat) (i num1 : Z),
    i + Z.of_nat k = argc -> 1 <= num1 <= i ->
    getSmtFileName_loop num argc argv i num1 = Some None.
Proof.
  intros Hnum Hargc Hmax.
  induction k as [| k IH]; intros i num1 Hk Hnum1;
    rewrite getSmtFileName_loop_step.
  - destruct (Z.ltb_spec i argc); [lia | reflexivity].
  - destruct (Z.ltb_spec i argc); [| lia].
    destruct (nth_error argv (Z.to_nat i)) as [a |] eqn:Ha.
    2: { apply nth_error_None in Ha. lia. }
    destruct (smt2_test a).
    + destruct (Z.eqb_spec num1 num); [lia |].
      rewrite wrap32_small by lia. apply IH; lia.
    + apply IH; lia.
Qed.

(** Asked for a name of index zero or below, [getSmtFileName] returns
    [NULL], whatever the arguments are. *)
Theorem getSmtFileName_nonpositive (num argc : Z) (argv : list string) :
  num <= 0 -> argc <= Z.of_nat (List.length argv) -> argc <= INT_MAX ->
  getSmtFileName num argc argv = Some None.
Proof.
  intros Hnum Hargc Hmax. unfold getSmtFileName.
  destruct (Z.le_gt_cases 1 argc) as [Hpos | Hneg].
  - apply (getSmtFileName_loop_nonpositive num argc argv Hnum Hargc Hmax
             (Z.to_nat (argc - 1))); lia.
  - rewrite getSmtFileName_loop_step.
    destruct (Z.ltb_spec 1 argc); [lia | reflexivity].
Qed.

Lemma getSmtFileName_nonpositive_witness :
  let argv := ["aeval"; "s.smt2"; "t.smt2"]%string in
  (0 <= 0 /\ 3 <= Z.of_nat (List.length argv) /\ 3 <= INT_MAX) /\
  getSmtFileName 0 3 argv = Some None.
Proof.
  cbv zeta.
  assert (Hargc : 3 <= Z.of_nat
    (List.length ["aeval"; "s.smt2"; "t.smt2"]%string)) by (cbn; lia).
  assert (Hmax : 3 <= INT_MAX) by (unfold INT_MAX; lia).
  split; [split; [lia | split; assumption] |].
  apply (getSmtFileName_nonpositive 0 3
           ["aeval"; "s.smt2"; "t.smt2"]%string); [lia | exact Hargc
                                                  | exact Hmax].
Defined.

(** The names that fit an [int], as a test on the whole vector. *)
Lemma lengths_fit (argv : list string) :
  forallb (fun a => strlen a <=? INT_MAX) argv = true ->
  forall a, In a argv -> strlen a <= INT_MAX.
Proof.
  intros H a Hin. rewrite forallb_forall in H.
  apply Z.leb_le. now apply H.
Qed.

Lemma getSmtFileName_eq (num argc : Z) (argv : list string) :
  0 < num <= INT_MAX ->
  argc <= Z.of_nat (List.length argv) ->
  forallb (fun a => strlen a <=? INT_MAX) argv = true ->
  getSmtFileName num argc argv = Some (nth_smt2_argument num argc argv).
Proof.
  intros Hnum Hargc Hlen. pose proof (lengths_fit argv Hlen) as Hfit.
  unfold getSmtFileName, nth_smt2_argument, smt2_arguments.
  destruct (Z.le_gt_cases 1 argc) as [Hpos | Hneg].
  - rewrite (getSmtFileName_loop_spec num argc argv)
      with (k := Z.to_nat (argc - 1)); try lia; auto.
  - rewrite getSmtFileName_loop_step.
    destruct (Z.ltb_spec 1 argc); [lia |].
    replace (Z.to_nat (argc - 1)) with 0%nat by lia.
    cbn. now destruct (Z.to_nat (num - 1)).
Qed.

(** A name that [getSmtFileName] returns is one of the arguments after
    the program name, and it ends in [.smt2]. *)
Theorem getSmtFileName_returns_argument (num argc : Z)
    (argv : list string) (name : string) :
  0 < num <= INT_MAX ->
  argc <= Z.of_nat (List.length argv) ->
  forallb (fun a => strlen a <=? INT_MAX) argv = true ->
  getSmtFileName num argc argv = Some (Some name) ->
  In name (arguments argc argv) /\
  exists stem, name = (stem ++ ".smt2")%string.
Proof.
  intros Hnum Hargc Hlen H.
  rewrite (getSmtFileName_eq num argc argv Hnum Hargc Hlen) in H.
  injection H as H. unfold nth_smt2_argument, smt2_arguments in H.
  apply nth_error_In in H. apply filter_In in H as [Hin Hname].
  split; [exact Hin |].
  unfold is_smt2_name in Hname. apply andb_true_iff in Hname as [_ He].
  now apply ends_in_spec.
Qed.

Lemma getSmtFileName_returns_argument_witness :
  let argv := ["aeval"; "--debug"; "s.smt2"; "t.smt2"]%string in
  (0 < 1 <= INT_MAX /\ 4 <= Z.of_nat (List.length argv) /\
   forallb (fun a => strlen a <=? INT_MAX) argv = true /\
   getSmtFileName 1 4 argv = Some (Some "s.smt2"%string)) /\
  In "s.smt2"%string (arguments 4 argv).
Proof.
  cbv zeta.
  assert (Hnum : 0 < 1 <= INT_MAX) by (unfold INT_MAX; lia).
  assert (Hargc : 4 <= Z.of_nat (List.length
    ["aeval"; "--debug"; "s.smt2"; "t.smt2"]%string)) by (cbn; lia).
  assert (Hlen : forallb (fun a => strlen a <=? INT_MAX)
    ["aeval"; "--debug"; "s.smt2"; "t.smt2"]%string = true)
    by reflexivity.
  assert (Hget : getSmtFileName 1 4
    ["aeval"; "--debug"; "s.smt2"; "t.smt2"]%string
    = Some (Some "s.smt2"%string)) by reflexivity.
  split; [repeat split; try assumption; lia |].
  apply (getSmtFileName_returns_argument 1 4 _ "s.smt2" Hnum Hargc Hlen
           Hget).
Defined.

End AeValNames.

Section AeValMain.

Import AeVal.

Variable Expr : Type.
Variable load : option string -> Expr.

Lemma main_eq (argc : Z) (argv : list string) :
  well_formed argc argv ->
  main Expr load argc argv =
  Some (0,
        let s := load (nth_smt2_argument 1 argc argv) in
        let t := load (nth_smt2_argument 2 argc argv) in
        if given "--all-inclusive" argc argv
        then getAllInclusiveSkolem Expr s t
               (given "--debug" argc argv) (given "--compact" argc argv)
        else aeSolveAndSkolemize Expr s t
               (given "--skol" argc argv) (given "--debug" argc argv)
               (given "--compact" argc argv) (given "--split" argc argv)).
Proof.
  intros (Hargc & Hnul & Hlen). unfold main.
  rewrite !getBoolValue_eq by (auto; reflexivity).
  rewrite !getSmtFileName_eq by (auto; unfold INT_MAX; lia).
  cbn [bind_option]. rewrite !orb_false_r.
  destruct (given "--all-inclusive" argc argv); reflexivity.
Qed.

(** [main] returns 0 after one solver call: the S-part is read from the
    first [.smt2] argument and the T-part from the second; under
    [--all-inclusive] the call is [getAllInclusiveSkolem] with the
    [--debug] and [--compact] flags, otherwise [aeSolveAndSkolemize] with
    [--skol], [--debug], [--compact] and [--split]. *)
Theorem main_solver_call (argc : Z) (argv : list string) :
  well_formed argc argv ->
  main Expr load argc argv =
  Some (0,
        let s := load (nth_smt2_argument 1 argc argv) in
        let t := load (nth_smt2_argument 2 argc argv) in
        if given "--all-inclusive" argc argv
        then getAllInclusiveSkolem Expr s t
               (given "--debug" argc argv) (given "--compact" argc argv)
        else aeSolveAndSkolemize Expr s t
               (given "--skol" argc argv) (given "--debug" argc argv)
               (given "--compact" argc argv) (given "--split" argc argv)).
Proof. apply main_eq. Qed.

(** [main] does not check that two file names were given: with fewer
    than two [.smt2] arguments it still goes on to the solver, the T-part
    read from a [NULL] name, and with none the S-part as well. *)
Theorem main_missing_names (argc : Z) (argv : list string) :
  well_formed argc argv ->
  (List.length (smt2_arguments argc argv) < 2)%nat ->
  exists c,
    main Expr load argc argv = Some (0, c) /\
    call_t Expr c = load None /\
    (smt2_arguments argc argv = [] -> call_s Expr c = load None).
Proof.
  intros Hwf Hfew. rewrite (main_eq argc argv Hwf).
  eexists. split; [reflexivity |].
  unfold nth_smt2_argument. cbn [Z.sub Z.to_nat Z.add Z.opp Z.pos_sub
    Pos.pred_double Pos.to_nat Pos.iter_op Nat.add].
  destruct (smt2_arguments argc argv) as [| n1 [| n2 rest]];
    cbn [List.length] in Hfew; try lia;
    destruct (given "--all-inclusive" argc argv); cbn;
    (split; [reflexivity |]); intros H; try reflexivity; discriminate H.
Qed.

Lemma existsb_perm (f : string -> bool) (l l' : list string) :
  Permutation l l' -> existsb f l = existsb f l'.
Proof.
  induction 1 as [| x l l' _ IH | x y l | l l' l'' _ IH1 _ IH2]; cbn.
  - reflexivity.
  - now rewrite IH.
  - destruct (f x), (f y); reflexivity.
  - now rewrite IH1.
Qed.

(** Flags and file names may come in any order: two command lines whose
    arguments are a permutation of each other and list the [.smt2] names
    in the same order end in the same solver call (the program name
    plays no part). *)
Theorem main_order_irrelevant (argc argc' : Z) (argv argv' : list string) :
  well_formed argc argv -> well_formed argc' argv' ->
  Permutation (arguments argc argv) (arguments argc' argv') ->
  smt2_arguments argc argv = smt2_arguments argc' argv' ->
  main Expr load argc argv = main Expr load argc' argv'.
Proof.
  intros Hwf Hwf' Hperm Hnames.
  rewrite (main_eq argc argv Hwf), (main_eq argc' argv' Hwf').
  unfold nth_smt2_argument, given.
  rewrite Hnames, !(existsb_perm _ _ _ Hperm). reflexivity.
Qed.

Lemma existsb_filter_keep (f keep : string -> bool) (l : list string) :
  (forall a, f a = true -> keep a = true) ->
  existsb f (filter keep l) = existsb f l.
Proof.
  intros Hk. induction l as [| a l IH]; cbn; [reflexivity |].
  destruct (keep a) eqn:Ha; cbn; rewrite IH; [reflexivity |].
  destruct (f a) eqn:Hf; [| reflexivity].
  apply Hk in Hf. congruence.
Qed.

Lemma filter_filter_keep (f keep : string -> bool) (l : list string) :
  (forall a, f a = true -> keep a = true) ->
  filter f (filter keep l) = filter f l.
Proof.
  intros Hk. induction l as [| a l IH]; cbn; [reflexivity |].
  destruct (keep a) eqn:Ha; cbn; rewrite IH; [reflexivity |].
  destruct (f a) eqn:Hf; [| reflexivity].
  apply Hk in Hf. congruence.
Qed.

Lemma forallb_filter (p keep : string -> bool) (l : list string) :
  forallb p l = true -> forallb p (filter keep l) = true.
Proof.
  rewrite !forallb_forall. intros H a Ha.
  apply filter_In in Ha as [Ha _]. auto.
Qed.

Lemma arguments_all (prog : string) (args : list string) :
  arguments (Z.of_nat (List.length (prog :: args))) (prog :: args) = args.
Proof.
  unfold arguments. cbn [List.length skipn].
  replace (Z.to_nat (Z.of_nat (S (List.length args)) - 1))
    with (List.length args) by lia.
  apply firstn_all.
Qed.

Lemma keeps_other_option (opt : string) :
  neither_skol_nor_split opt = true ->
  forall a, String.eqb opt a = true -> neither_skol_nor_split a = true.
Proof.
  intros H a Ha. apply String.eqb_eq in Ha. now subst a.
Qed.

Lemma keeps_smt2_names (a : string) :
  is_smt2_name a = true -> neither_skol_nor_split a = true.
Proof.
  intros H. unfold neither_skol_nor_split.
  destruct (String.eqb_spec a "--skol") as [-> | _]; [discriminate H |].
  destruct (String.eqb_spec a "--split") as [-> | _]; [discriminate H |].
  reflexivity.
Qed.

(** Under [--all-inclusive] the options [--skol] and [--split] are
    ignored: striking them from the command line leaves the solver call
    as it is. *)
Theorem main_all_inclusive_overrides (prog : string) (args : list string) :
  well_formed (Z.of_nat (List.length (prog :: args))) (prog :: args) ->
  In "--all-inclusive"%string args ->
  main Expr load
    (Z.of_nat (List.length (prog :: filter neither_skol_nor_split args)))
    (prog :: filter neither_skol_nor_split args) =
  main Expr load (Z.of_nat (List.length (prog :: args))) (prog :: args).
Proof.
  intros Hwf Hall.
  assert (Hwf' : well_formed
    (Z.of_nat (List.length (prog :: filter neither_skol_nor_split args)))
    (prog :: filter neither_skol_nor_split args)).
  { destruct Hwf as (_ & Hnul & Hlen). cbn [forallb] in Hnul, Hlen.
    apply andb_true_iff in Hnul as [Hn1 Hn2].
    apply andb_true_iff in Hlen as [Hl1 Hl2].
    split; [lia |]. cbn [forallb].
    rewrite Hn1, Hl1, !forallb_filter by assumption. auto. }
  rewrite (main_eq _ _ Hwf), (main_eq _ _ Hwf').
  unfold nth_smt2_argument, smt2_arguments, given.
  fold (arguments (Z.of_nat (List.length (prog :: args))) (prog :: args)).
  fold (arguments
          (Z.of_nat
             (List.length (prog :: filter neither_skol_nor_split args)))
          (prog :: filter neither_skol_nor_split args)).
  rewrite !arguments_all.
  rewrite (filter_filter_keep _ _ args keeps_smt2_names).
  rewrite !(existsb_filter_keep (String.eqb "--all-inclusive"))
    by (apply keeps_other_option; reflexivity).
  rewrite !(existsb_filter_keep (String.eqb "--debug"))
    by (apply keeps_other_option; reflexivity).
  rewrite !(existsb_filter_keep (String.eqb "--compact"))
    by (apply keeps_other_option; reflexivity).
  assert (Hgiven : existsb (String.eqb "--all-inclusive") args = true).
  { apply existsb_exists. exists "--all-inclusive"%string.
    split; [exact Hall | reflexivity]. }
  rewrite Hgiven. reflexivity.
Qed.

End AeValMain.

Section AeValMainWitnesses.

Import AeVal.

Lemma well_formed_example :
  well_formed 4 ["aeval"; "--skol"; "s.smt2"; "t.smt2"]%string.
Proof. split; [cbn; lia | split; reflexivity]. Defined.

(** A command line with [--skol] and two names: the solver is called on
    the two formulas with the Skolem flag set. *)
Lemma main_solver_call_witness :
  well_formed 4 ["aeval"; "--skol"; "s.smt2"; "t.smt2"]%string /\
  main (option string) (fun name => name) 4
    ["aeval"; "--skol"; "s.smt2"; "t.smt2"]%string =
  Some (0, aeSolveAndSkolemize (option string)
             (Some "s.smt2"%string) (Some "t.smt2"%string)
             true false false false).
Proof.
  split; [exact well_formed_example |].
  apply (main_solver_call (option string) (fun name => name) 4
           ["aeval"; "--skol"; "s.smt2"; "t.smt2"]%string
           well_formed_example).
Defined.

(** A command line with one name only: the T-part is read from [NULL]. *)
Lemma main_missing_names_witness :
  (well_formed 2 ["aeval"; "s.smt2"]%string /\
   (List.length (smt2_arguments 2 ["aeval"; "s.smt2"]%string) < 2)%nat) /\
  exists c,
    main (option string) (fun name => name) 2 ["aeval"; "s.smt2"]%string
      = Some (0, c) /\
    call_t (option string) c = None.
Proof.
  assert (Hwf : well_formed 2 ["aeval"; "s.smt2"]%string)
    by (split; [cbn; lia | split; reflexivity]).
  assert (Hfew : (List.length
            (smt2_arguments 2 ["aeval"; "s.smt2"]%string) < 2)%nat)
    by (vm_compute; lia).
  split; [split; assumption |].
  destruct (main_missing_names (option string) (fun name => name) 2
              ["aeval"; "s.smt2"]%string Hwf Hfew) as (c & Hc & Ht & _).
  exists c. split; assumption.
Defined.

(** The flag before the names or after them, under another program
    name. *)
Lemma main_order_irrelevant_witness :
  (well_formed 4 ["aeval"; "--skol"; "s.smt2"; "t.smt2"]%string /\
   well_formed 4 ["./aeval"; "s.smt2"; "t.smt2"; "--skol"]%string /\
   Permutation
     (arguments 4 ["aeval"; "--skol"; "s.smt2"; "t.smt2"]%string)
     (arguments 4 ["./aeval"; "s.smt2"; "t.smt2"; "--skol"]%string) /\
   smt2_arguments 4 ["aeval"; "--skol"; "s.smt2"; "t.smt2"]%string =
   smt2_arguments 4 ["./aeval"; "s.smt2"; "t.smt2"; "--skol"]%string) /\
  main (option string) (fun name => name) 4
    ["aeval"; "--skol"; "s.smt2"; "t.smt2"]%string =
  main (option string) (fun name => name) 4
    ["./aeval"; "s.smt2"; "t.smt2"; "--skol"]%string.
Proof.
  assert (Hwf' : well_formed 4
            ["./aeval"; "s.smt2"; "t.smt2"; "--skol"]%string)
    by (split; [cbn; lia | split; reflexivity]).
  assert (Hperm : Permutation
     (arguments 4 ["aeval"; "--skol"; "s.smt2"; "t.smt2"]%string)
     (arguments 4 ["./aeval"; "s.smt2"; "t.smt2"; "--skol"]%string))
    by (apply (Permutation_cons_append ["s.smt2"; "t.smt2"]%string
                 "--skol"%string)).
  assert (Hnames :
    smt2_arguments 4 ["aeval"; "--skol"; "s.smt2"; "t.smt2"]%string =
    smt2_arguments 4 ["./aeval"; "s.smt2"; "t.smt2"; "--skol"]%string)
    by reflexivity.
  split; [repeat split; try assumption; apply well_formed_example |].
  apply (main_order_irrelevant (option string) (fun name => name) 4 4
           _ _ well_formed_example Hwf' Hperm Hnames).
Defined.

(** [--skol] given with [--all-inclusive], and struck. *)
Lemma main_all_inclusive_overrides_witness :
  let args := ["--all-inclusive"; "--skol"; "s.smt2"; "t.smt2"]%string in
  (well_formed 5 ("aeval"%string :: args) /\
   In "--all-inclusive"%string args) /\
  main (option string) (fun name => name) 4
    ["aeval"; "--all-inclusive"; "s.smt2"; "t.smt2"]%string =
  main (option string) (fun name => name) 5 ("aeval"%string :: args).
Proof.
  cbv zeta.
  assert (Hwf : well_formed
            (Z.of_nat (List.length
               ("aeval"%string ::
                ["--all-inclusive"; "--skol"; "s.smt2"; "t.smt2"]%string)))
            ("aeval"%string ::
             ["--all-inclusive"; "--skol"; "s.smt2"; "t.smt2"]%string))
    by (split; [cbn; lia | split; reflexivity]).
  assert (Hin : In "--all-inclusive"%string
            ["--all-inclusive"; "--skol"; "s.smt2"; "t.smt2"]%string)
    by (left; reflexivity).
  split; [split; assumption |].
  apply (main_all_inclusive_overrides (option string) (fun name => name)
           "aeval" ["--all-inclusive"; "--skol"; "s.smt2"; "t.smt2"]%string
           Hwf Hin).
Defined.

End AeValMainWitnesses.

Section InstrumentationPlace.

Import SeaPP.

(** Whatever the options, an instrumentation stage of the queue
    (lowering, shadow parameters, bounds check, overflow check) comes
    after the unification of exit nodes, and under [-horn-inline-all]
    after the inliner as well: instrumentation sees the normalised,
    inlined module. *)
Theorem instrumentation_after_normalization (opts : Options)
    (module : Module) (l1 l2 : list Pass) (p : Pass) :
  pipeline opts module = l1 ++ p :: l2 ->
  is_instrumentation p = true ->
  (1 <= count is_exit_unification l1)%nat /\
  (InlineAll opts = true -> (1 <= count is_inliner l1)%nat).
Proof.
  intros Hsplit Hp.
  assert (H : each_preceded_by false is_instrumentation
                is_exit_unification (pipeline opts module) = true /\
              (InlineAll opts = true ->
               each_preceded_by false is_instrumentation
                 is_inliner (pipeline opts module) = true)).
  { rewrite pipeline_blocks.
    unfold inline_stages, boc_stages, ioc_stages, mixed_stages,
      output_stages.
    destruct (layout_stage_cases opts module) as [-> | ->];
      destruct (InlineAll opts), (BOC opts), (IOC opts), (MixedSem opts),
        (negb (empty (OutputFilename opts))), (OutputAssembly opts);
      split; try reflexivity; intros; try reflexivity; discriminate. }
  destruct H as [Hu Hi]. split.
  - destruct (each_preceded_by_spec _ _ _ _ Hu l1 p l2 Hsplit Hp)
      as [Hs | Hc]; [discriminate Hs | exact Hc].
  - intros Hinl.
    destruct (each_preceded_by_spec _ _ _ _ (Hi Hinl) l1 p l2 Hsplit Hp)
      as [Hs | Hc]; [discriminate Hs | exact Hc].
Qed.

Lemma instrumentation_after_normalization_witness :
  let opts :=
    mkOptions "prog.bc" "" false "" true false true false
      INT_MAX INT_MAX INT_MAX (-1) in
  let l1 := firstn 23 (pipeline opts (mkModule "")) in
  let l2 := skipn 24 (pipeline opts (mkModule "")) in
  (pipeline opts (mkModule "") = l1 ++ LowerCstExprPass :: l2 /\
   is_instrumentation LowerCstExprPass = true) /\
  (1 <= count is_exit_unification l1)%nat.
Proof.
  cbv zeta. split; [split; reflexivity |].
  apply (instrumentation_after_normalization
           (mkOptions "prog.bc" "" false "" true false true false
              INT_MAX INT_MAX INT_MAX (-1)) (mkModule "")
           _ (skipn 24 (pipeline
                (mkOptions "prog.bc" "" false "" true false true false
                   INT_MAX INT_MAX INT_MAX (-1)) (mkModule "")))
           LowerCstExprPass); reflexivity.
Defined.

End InstrumentationPlace.

Section FurtherWitnesses.

Import SeaPP.

(** A name without dot is returned as it is; a name with one is not. *)
Lemma getFileName_unchanged_iff_witness :
  getFileName "Makefile" = "Makefile"%string /\
  getFileName "prog.bc" <> "prog.bc"%string.
Proof.
  split.
  - apply (getFileName_unchanged_iff "Makefile"). reflexivity.
  - intros H. apply (getFileName_unchanged_iff "prog.bc") in H.
    discriminate H.
Defined.

(** [-boc -ioc -horn-inline-all]: both checks carry [true]. *)
Lemma checks_on_request_witness :
  let opts :=
    mkOptions "prog.bc" "" false "" true true true false
      INT_MAX INT_MAX INT_MAX (-1) in
  In (BufferBoundsCheck true) (pipeline opts (mkModule "")) /\
  ~ In (BufferBoundsCheck false) (pipeline opts (mkModule "")).
Proof.
  cbv zeta. split.
  - vm_compute. tauto.
  - intros H.
    apply (checks_on_request
             (mkOptions "prog.bc" "" false "" true true true false
                INT_MAX INT_MAX INT_MAX (-1)) (mkModule "")) in H.
    discriminate H.
Defined.

(** A run whose output file cannot be opened: exit code 3, nothing run,
    nothing kept. *)
Lemma main_outcomes_witness :
  let env :=
    mkEnv (fun _ => inl (mkModule ""))
      (fun _ => "Permission denied"%string) false (fun _ _ => true) in
  let opts :=
    mkOptions "prog.bc" "/out.bc" false "" false false false false
      INT_MAX INT_MAX INT_MAX (-1) in
  parse_fails env opts || output_error env opts = true /\
  fst (main env opts) = Exit 3 /\
  forall e, In e (snd (main env opts)) -> is_run e = false.
Proof.
  cbv zeta.
  destruct (main_outcomes
    (mkEnv (fun _ => inl (mkModule ""))
       (fun _ => "Permission denied"%string) false (fun _ _ => true))
    (mkOptions "prog.bc" "/out.bc" false "" false false false false
       INT_MAX INT_MAX INT_MAX (-1))) as (H3 & _ & _ & Hquiet).
  split; [reflexivity |]. split; [apply H3; reflexivity |].
  intros e He. apply (Hquiet (proj2 H3 eq_refl) e He).
Defined.

(** A run that succeeds with [-o out.bc] keeps [out.bc]. *)
Lemma output_kept_iff_witness :
  let env :=
    mkEnv (fun _ => inl (mkModule "")) (fun _ => EmptyString) false
      (fun _ _ => true) in
  let opts :=
    mkOptions "prog.bc" "out.bc" false "" false false false false
      INT_MAX INT_MAX INT_MAX (-1) in
  In (Keep "out.bc") (snd (main env opts)) /\
  ~ In (Keep "prog.bc") (snd (main env opts)).
Proof.
  cbv zeta. split.
  - apply (output_kept_iff
      (mkEnv (fun _ => inl (mkModule "")) (fun _ => EmptyString) false
         (fun _ _ => true))
      (mkOptions "prog.bc" "out.bc" false "" false false false false
         INT_MAX INT_MAX INT_MAX (-1)) "out.bc").
    repeat split.
  - intros H.
    apply (output_kept_iff
      (mkEnv (fun _ => inl (mkModule "")) (fun _ => EmptyString) false
         (fun _ _ => true))
      (mkOptions "prog.bc" "out.bc" false "" false false false false
         INT_MAX INT_MAX INT_MAX (-1)) "prog.bc") in H.
    destruct H as (_ & _ & H). discriminate H.
Defined.

(** A run with [-o out.bc] that succeeds: opening, run, keeping. *)
Lemma passes_run_on_parsed_module_witness :
  let env :=
    mkEnv (fun _ => inl (mkModule "e-p:64:64:64")) (fun _ => EmptyString)
      false (fun _ _ => true) in
  let opts :=
    mkOptions "prog.bc" "out.bc" false "" false false false false
      INT_MAX INT_MAX INT_MAX (-1) in
  let module := mkModule "e-p:64:64:64" in
  snd (main env opts) =
    [OpenOutput "out.bc"] ++
    Run (pipeline opts module) module :: [Keep "out.bc"] /\
  ParseIRFile env (InputFilename opts) = inl module /\
  output_error env opts = false.
Proof.
  cbv zeta.
  assert (Heq : snd (main
    (mkEnv (fun _ => inl (mkModule "e-p:64:64:64")) (fun _ => EmptyString)
       false (fun _ _ => true))
    (mkOptions "prog.bc" "out.bc" false "" false false false false
       INT_MAX INT_MAX INT_MAX (-1))) =
    [OpenOutput "out.bc"] ++
    Run (pipeline
           (mkOptions "prog.bc" "out.bc" false "" false false false false
              INT_MAX INT_MAX INT_MAX (-1)) (mkModule "e-p:64:64:64"))
      (mkModule "e-p:64:64:64") :: [Keep "out.bc"]) by reflexivity.
  split; [exact Heq |].
  destruct (passes_run_on_parsed_module
    (mkEnv (fun _ => inl (mkModule "e-p:64:64:64")) (fun _ => EmptyString)
       false (fun _ _ => true))
    (mkOptions "prog.bc" "out.bc" false "" false false false false
       INT_MAX INT_MAX INT_MAX (-1))) as [_ Hrun].
  destruct (Hrun _ _ _ _ Heq) as (Hparse & _ & Herr & _).
  split; assumption.
Defined.

End FurtherWitnesses.
